(** * TClingMethodInfo and rootclingIO: a shallow embedding

    The declaration cursor of [core/metacling/src/TClingMethodInfo.cxx]
    (the CINT-style [MethodInfo] emulation over the Clang AST) and the
    dictionary-file helper of [io/rootpcm/src/rootclingIO.cxx].

    The Clang AST, Sema and the ROOT run time are external: AST nodes are
    records holding what the code asks of them, and the answers of Sema,
    the lookup helper and the mangler are fields of the interpreter
    handle the cursor carries. *)

From stdpp Require Import base option list strings gmap.
From Stdlib Require Import ZArith Lia Ascii Btauto.

Local Open Scope Z_scope.

(** ** Machine integers *)

(** [unsigned int]: arithmetic modulo [2^32]. *)
Definition UINT_WIDTH : Z := 32.

Definition to_unsigned (z : Z) : Z := z mod 2 ^ UINT_WIDTH.

(** [static_cast<int>(u)] for an [unsigned] value [u]. *)
Definition static_cast_int (u : Z) : Z :=
  if decide (u < 2 ^ (UINT_WIDTH - 1)) then u else u - 2 ^ UINT_WIDTH.

(** ** The Clang AST, as far as the cursor reads it *)

Module clang.

Inductive AccessSpecifier := AS_public | AS_protected | AS_private | AS_none.

Inductive StorageClass :=
  SC_None | SC_Extern | SC_Static | SC_PrivateExtern | SC_Auto | SC_Register.

Inductive TemplatedKind :=
  | TK_NonTemplate
  | TK_FunctionTemplate
  | TK_MemberSpecialization
  | TK_FunctionTemplateSpecialization
  | TK_DependentFunctionTemplateSpecialization.

(** Canonical types.  The null [QualType()] is not one of them: a
    possibly-null type is an [option QualType]. *)
Inductive QualType :=
  | Plain (isConstQualified : bool) (spelling : string)
  | Undeduced (isConstQualified : bool)
  | ArrayType (isConstQualified : bool) (getElementType : QualType)
  | ReferenceType (getPointeeType : QualType)
  | PointerType (isConstQualified : bool) (getPointeeType : QualType)
  | MemberPointerType (isConstQualified : bool) (getPointeeType : QualType).

Definition isConstQualified (qt : QualType) : bool :=
  match qt with
  | Plain c _ | Undeduced c | ArrayType c _ | PointerType c _
  | MemberPointerType c _ => c
  | ReferenceType _ => false
  end.

Definition isUndeducedType (qt : QualType) : bool :=
  match qt with Undeduced _ => true | _ => false end.

(** The dynamic class of a function declaration, for [llvm::dyn_cast]. *)
Inductive FunctionClass :=
  Function | CXXMethod | CXXConstructor | CXXDestructor | CXXConversion.

Module FunctionDecl.
Record t := mk {
  getNameAsString : string;
  getKind : FunctionClass;
  isDeleted : bool;
  isConstexpr : bool;
  isImplicit : bool;
  getAccess : AccessSpecifier;
  (** [getDeclContext()->isNamespace()] *)
  inNamespace : bool;
  (** [dyn_cast_or_null<TypeDecl>(getDeclContext())->getTypeForDecl()] *)
  getTypeForDeclContext : option QualType;
  getStorageClass : StorageClass;
  getReturnType : QualType;
  (** the return type once [Sema::DeduceReturnType] has succeeded *)
  getDeducedReturnType : option QualType;
  getNumParams : Z;
  getMinRequiredArguments : Z;
  (** [getMethodQualifiers().hasConst()] *)
  hasConst : bool;
  isVirtual : bool;
  isPure : bool;
  isExplicit : bool;
  isOverloadedOperator : bool;
  isInlined : bool;
  getTemplatedKind : TemplatedKind
}.
End FunctionDecl.

Definition isa_CXXMethodDecl (fd : FunctionDecl.t) : bool :=
  match FunctionDecl.getKind fd with Function => false | _ => true end.

Definition isa_CXXConstructorDecl (fd : FunctionDecl.t) : bool :=
  match FunctionDecl.getKind fd with CXXConstructor => true | _ => false end.

Definition isa_CXXDestructorDecl (fd : FunctionDecl.t) : bool :=
  match FunctionDecl.getKind fd with CXXDestructor => true | _ => false end.

Definition isa_CXXConversionDecl (fd : FunctionDecl.t) : bool :=
  match FunctionDecl.getKind fd with CXXConversion => true | _ => false end.

(** What a using-shadow declaration stands for. *)
Inductive NamedDecl :=
  | TargetFunction (fd : FunctionDecl.t)
  | TargetOther (name : string).

Module UsingShadowDecl.
Record t := mk {
  (** dynamic class [ConstructorUsingShadowDecl] *)
  isConstructorUsingShadow : bool;
  getTargetDecl : NamedDecl
}.
End UsingShadowDecl.

Module UsingDecl.
Record t := mk {
  getAccess : AccessSpecifier;
  (** [shadow_begin() .. shadow_end()] *)
  shadows : list UsingShadowDecl.t
}.
End UsingDecl.

Inductive TemplateParmKind :=
  TemplateTypeParm | NonTypeTemplateParm | TemplateTemplateParm.

Module TemplateParm.
Record t := mk {
  getKind : TemplateParmKind;
  hasDefaultArgument : bool;
  isTemplateParameterPack : bool
}.
End TemplateParm.

Module FunctionTemplateDecl.
Record t := mk {
  getNameAsString : string;
  getAccess : AccessSpecifier;
  getTemplateParameters : list TemplateParm.t;
  containsUnexpandedParameterPack : bool;
  (** [getTemplateParameters()->getMinRequiredArguments()] *)
  getMinRequiredArguments : Z
}.
End FunctionTemplateDecl.

(** A declaration met by a [decl_iterator]. *)
#[warnings="-register-all"]
Inductive Decl :=
  | DFunction (fd : FunctionDecl.t)
  | DFunctionTemplate (ftd : FunctionTemplateDecl.t)
  | DUsing (ud : UsingDecl.t)
  | DNamespace (inTranslationUnit isInlineNamespace : bool) (decls : list Decl)
  | DOther (access : AccessSpecifier).

Definition getAccess (d : Decl) : AccessSpecifier :=
  match d with
  | DFunction fd => FunctionDecl.getAccess fd
  | DFunctionTemplate ftd => FunctionTemplateDecl.getAccess ftd
  | DUsing ud => UsingDecl.getAccess ud
  | DNamespace _ _ _ => AS_none
  | DOther a => a
  end.

(** [DeclContext::decl_iterator]: the declaration it points at and the
    ones after it; the end iterator, whose [operator*] is null, is [[]]. *)
Definition decl_iterator := list Decl.

(** A [DeclContext], read through [decls_begin()]. *)
Definition DeclContext := list Decl.

Definition decls_begin (dc : DeclContext) : decl_iterator := dc.

Inductive CXXCtorDtorType := Plain_GD | Ctor_Complete | Dtor_Deleting.

Definition GlobalDecl : Type := FunctionDecl.t * CXXCtorDtorType.

End clang.

Import clang.

(** ** The interpreter handle

    [cling::Interpreter], with the answers of the collaborators the
    cursor calls through it: [Sema::findInheritingConstructor], the
    lookup helper's [findFunctionProto] for a function template whose
    defaults have been substituted, and
    [cling::utils::Analyze::maybeMangleDeclName]. *)
Module Interpreter.
Record t := mk {
  findInheritingConstructor :
    FunctionDecl.t -> UsingShadowDecl.t -> option FunctionDecl.t;
  findFunctionProto : FunctionTemplateDecl.t -> option FunctionDecl.t;
  maybeMangleDeclName : GlobalDecl -> string
}.
End Interpreter.

(** ** [TClingMethodInfo::UsingIterator] *)

Module UsingIterator.

(** [fIter] is the shadow it points at followed by the later ones; [fEnd]
    is always [shadow_end()], the empty list. *)
Record t := mk {
  fInterp : Interpreter.t;
  fIter : list UsingShadowDecl.t
}.

(** [explicit UsingIterator(interp, decl)] *)
Definition of_decl (interp : Interpreter.t) (decl : UsingDecl.t) : t :=
  mk interp (UsingDecl.shadows decl).

(** [operator bool()]: [fIter != fEnd]. *)
Definition to_bool (it : t) : bool :=
  match fIter it with [] => false | _ :: _ => true end.

(** [operator++ ()] *)
Definition incr (it : t) : t := mk (fInterp it) (tail (fIter it)).

Definition dyn_cast_CXXConstructorDecl (d : NamedDecl) : option FunctionDecl.t :=
  match d with
  | TargetFunction fd => if isa_CXXConstructorDecl fd then Some fd else None
  | TargetOther _ => None
  end.

Definition dyn_cast_CXXMethodDecl (d : NamedDecl) : option FunctionDecl.t :=
  match d with
  | TargetFunction fd => if isa_CXXMethodDecl fd then Some fd else None
  | TargetOther _ => None
  end.

Definition dyn_cast_FunctionDecl (d : NamedDecl) : option FunctionDecl.t :=
  match d with
  | TargetFunction fd => Some fd
  | TargetOther _ => None
  end.

(** The dereference operator: the function the shadow resolves to, or
    null. *)
Definition deref (it : t) : option FunctionDecl.t :=
  match fIter it with
  | [] => None
  | shadow :: _ =>
    let target := UsingShadowDecl.getTargetDecl shadow in
    if UsingShadowDecl.isConstructorUsingShadow shadow then
      match dyn_cast_CXXConstructorDecl target with
      | Some base_ctor =>
        if FunctionDecl.isImplicit base_ctor then None
        else Interpreter.findInheritingConstructor (fInterp it) base_ctor shadow
      | None => dyn_cast_FunctionDecl target
      end
    else
      match dyn_cast_CXXMethodDecl target with
      | Some method => Some method
      | None => dyn_cast_FunctionDecl target
      end
  end.

(** The stepping loop of [InternalNext] (increment while not at the end,
    return at the first position whose [operator*] is not null), entered
    with [rest] under the iterator: the position it returns at, or [None]
    when the increments reach the end. *)
Fixpoint seek (interp : Interpreter.t) (rest : list UsingShadowDecl.t) : option t :=
  match rest with
  | [] => None
  | _ :: rest' =>
    if to_bool (mk interp rest') then
      match deref (mk interp rest') with
      | Some _ => Some (mk interp rest')
      | None => seek interp rest'
      end
    else None
  end.

End UsingIterator.

(** ** The cursor: [class TClingMethodInfo] *)

Module TClingMethodInfo.

Record t := mk {
  (** [TClingDeclInfo::fDecl]: the fixed declaration, null when iterating *)
  fDecl : option Decl;
  (** [TClingDeclInfo::fNameCache] *)
  fNameCache : string;
  fInterp : Interpreter.t;
  fContexts : list DeclContext;
  fFirstTime : bool;
  (** [unsigned int] *)
  fContextIdx : Z;
  fIter : decl_iterator;
  fTitle : string;
  fTemplateSpec : option FunctionDecl.t;
  (** owned; [None] is [nullptr] *)
  fUsingIter : option UsingIterator.t;
  fAccessDecl : option Decl
}.

Definition set_fNameCache (v : string) (c : t) : t :=
  mk (fDecl c) v (fInterp c) (fContexts c) (fFirstTime c) (fContextIdx c)
     (fIter c) (fTitle c) (fTemplateSpec c) (fUsingIter c) (fAccessDecl c).

Definition set_fContexts (v : list DeclContext) (c : t) : t :=
  mk (fDecl c) (fNameCache c) (fInterp c) v (fFirstTime c) (fContextIdx c)
     (fIter c) (fTitle c) (fTemplateSpec c) (fUsingIter c) (fAccessDecl c).

Definition set_fFirstTime (v : bool) (c : t) : t :=
  mk (fDecl c) (fNameCache c) (fInterp c) (fContexts c) v (fContextIdx c)
     (fIter c) (fTitle c) (fTemplateSpec c) (fUsingIter c) (fAccessDecl c).

Definition set_fContextIdx (v : Z) (c : t) : t :=
  mk (fDecl c) (fNameCache c) (fInterp c) (fContexts c) (fFirstTime c) v
     (fIter c) (fTitle c) (fTemplateSpec c) (fUsingIter c) (fAccessDecl c).

Definition set_fIter (v : decl_iterator) (c : t) : t :=
  mk (fDecl c) (fNameCache c) (fInterp c) (fContexts c) (fFirstTime c)
     (fContextIdx c) v (fTitle c) (fTemplateSpec c) (fUsingIter c)
     (fAccessDecl c).

Definition set_fTemplateSpec (v : option FunctionDecl.t) (c : t) : t :=
  mk (fDecl c) (fNameCache c) (fInterp c) (fContexts c) (fFirstTime c)
     (fContextIdx c) (fIter c) (fTitle c) v (fUsingIter c) (fAccessDecl c).

Definition set_fUsingIter (v : option UsingIterator.t) (c : t) : t :=
  mk (fDecl c) (fNameCache c) (fInterp c) (fContexts c) (fFirstTime c)
     (fContextIdx c) (fIter c) (fTitle c) (fTemplateSpec c) v (fAccessDecl c).

Definition set_fAccessDecl (v : option Decl) (c : t) : t :=
  mk (fDecl c) (fNameCache c) (fInterp c) (fContexts c) (fFirstTime c)
     (fContextIdx c) (fIter c) (fTitle c) (fTemplateSpec c) (fUsingIter c) v.

(** The constructor from an interpreter and a [FunctionDecl] pointer:
    takes a concrete declaration and disables the iterator. *)
Definition of_FunctionDecl (interp : Interpreter.t) (FD : option FunctionDecl.t) : t :=
  mk (DFunction <$> FD) "" interp [] true 0 [] "" None None None.

(** [Init], given a [FunctionDecl] pointer. *)
Definition Init (decl : option FunctionDecl.t) (c : t) : t :=
  mk (DFunction <$> decl) (fNameCache c) (fInterp c) [] true 0 [] (fTitle c)
     None None None.

(** [*fIter] of the outer iterator: null at the end. *)
Definition cur_decl (c : t) : option Decl := head (fIter c).

(** [GetDeclSlow() const] *)
Definition GetDeclSlow (c : t) : option Decl :=
  match fTemplateSpec c with
  | Some spec => Some (DFunction spec)
  | None =>
    match fUsingIter c with
    | Some it =>
      if negb (UsingIterator.to_bool it) then None
      else DFunction <$> UsingIterator.deref it
    | None => cur_decl c
    end
  end.

(** [GetDecl() const override] *)
Definition GetDecl (c : t) : option Decl :=
  match fDecl c with
  | Some SingleDecl => Some SingleDecl
  | None => GetDeclSlow c
  end.

(** Modelled from the spec: [TClingDeclInfo::IsValid], of the base class
    [TClingDeclInfo], which is not among the sources.  The spec calls a
    cursor invalid when it has no current declaration to answer for
    ("invalid/exhausted/null-current cursor"): the cursor is valid when
    [GetDecl()] is not null. *)
Definition IsValid (c : t) : bool := bool_decide (is_Some (GetDecl c)).

(** [llvm::cast_or_null<FunctionDecl>]: the null pointer stays null, a
    declaration of another class fails the cast's assertion ([None]). *)
Definition cast_or_null_FunctionDecl (d : option Decl) : option (option FunctionDecl.t) :=
  match d with
  | None => Some None
  | Some (DFunction fd) => Some (Some fd)
  | Some _ => None
  end.

(** [GetMethodDecl() const] *)
Definition GetMethodDecl (c : t) : option (option FunctionDecl.t) :=
  cast_or_null_FunctionDecl (GetDecl c).

End TClingMethodInfo.

(** ** Advancing the cursor *)

(** [GetOrInstantiateFuncTemplateWithDefaults]: the function returns
    [nullptr] in its first statement (under the comment "NO!!"); the
    substitution of defaults and the lookup below it are never run. *)
Definition GetOrInstantiateFuncTemplateWithDefaults
    (FTDecl : FunctionTemplateDecl.t) (interp : Interpreter.t) : option FunctionDecl.t :=
  None.

Module Import Advance.
Import TClingMethodInfo.

(** Where a block of the loop body leaves control: at a [return], or at
    the statement after the block. *)
Inductive Flow :=
  | Return (r : Z) (c : t)
  | Next_stmt (c : t).

(** "Advance to the next decl": a first call only clears [fFirstTime];
    later calls step the using-sub-iterator when it is set and not at its
    end, and the outer iterator otherwise. *)
Definition advance (c : t) : Flow :=
  if fFirstTime c then Next_stmt (set_fFirstTime false c)
  else
    match fUsingIter c with
    | Some it =>
      if UsingIterator.to_bool it then
        match UsingIterator.seek (UsingIterator.fInterp it) (UsingIterator.fIter it) with
        | Some it' => Return 1 (set_fUsingIter (Some it') c)
        | None =>
          Next_stmt
            (set_fIter (tail (fIter c))
               (set_fAccessDecl None (set_fUsingIter None c)))
        end
      else Next_stmt (set_fIter (tail (fIter c)) c)
    | None => Next_stmt (set_fIter (tail (fIter c)) c)
    end.

(** "Fix it if we have gone past the end of the current decl context":
    the loop [while (!*fIter)], one unit of [fuel] per round.  The
    incremented index is an unsigned value, so the lookup in [fContexts]
    fails exactly when [fContextIdx >= fContexts.size()], the test that
    guards the subscript. *)
Fixpoint next_context (fuel : nat) (c : t) : option Flow :=
  match fIter c with
  | _ :: _ => Some (Next_stmt c)
  | [] =>
    match fuel with
    | O => None
    | S fuel' =>
      let c := set_fContextIdx (to_unsigned (fContextIdx c + 1)) c in
      match fContexts c !! Z.to_nat (fContextIdx c) with
      | None => Some (Return 0 c)
      | Some dc => next_context fuel' (set_fIter (decls_begin dc) c)
      end
    end
  end.

(** The classification of [cur_decl], from the test for a function
    template to the collection of inline namespaces. *)
Definition classify (c : t) : Flow :=
  match fIter c with
  | [] => Next_stmt c
  | cur_decl :: _ =>
    let c :=
      match cur_decl with
      | DFunctionTemplate templateDecl =>
        let spec := GetOrInstantiateFuncTemplateWithDefaults templateDecl (fInterp c) in
        let spec :=
          match spec with
          | Some s => if FunctionDecl.isDeleted s then None else Some s
          | None => None
          end in
        set_fTemplateSpec spec c
      | _ => c
      end in
    match cur_decl, fTemplateSpec c with
    | DFunctionTemplate _, Some _ => Return 1 c
    | DUsing udecl, _ =>
      Return 1
        (set_fUsingIter (Some (UsingIterator.of_decl (fInterp c) udecl))
           (set_fAccessDecl (Some cur_decl) c))
    | DFunction FD, _ =>
      if FunctionDecl.isDeleted FD then Next_stmt c else Return 1 c
    | DNamespace inTU isInline decls, _ =>
      if inTU && isInline then Next_stmt (set_fContexts (fContexts c ++ [decls]) c)
      else Next_stmt c
    | _, _ => Next_stmt c
    end
  end.

(** The body of [while (true)], with one unit of [fuel] per round. *)
Fixpoint loop (fuel : nat) (c : t) : option (Z * t) :=
  match fuel with
  | O => None
  | S fuel' =>
    match advance (set_fTemplateSpec None c) with
    | Return r c => Some (r, c)
    | Next_stmt c =>
      match next_context fuel c with
      | None => None
      | Some (Return r c) => Some (r, c)
      | Some (Next_stmt c) =>
        match classify c with
        | Return r c => Some (r, c)
        | Next_stmt c => loop fuel' c
        end
      end
    end
  end.

End Advance.

Module Import Cursor.
Import TClingMethodInfo.

(** The precondition [assert(!fDecl && "This is not an iterator!")]. *)
Definition iterating (c : t) : Prop := fDecl c = None.

(** [int TClingMethodInfo::InternalNext()]; [None] when [fuel] rounds of
    its loops do not reach a [return]. *)
Definition InternalNext (fuel : nat) (c : t) : option (Z * t) :=
  let c := set_fNameCache "" c in
  if negb (fFirstTime c) && bool_decide (cur_decl c = None) then Some (0, c)
  else loop fuel c.

(** [int TClingMethodInfo::Next()] *)
Definition Next (fuel : nat) (c : t) : option (Z * t) := InternalNext fuel c.

End Cursor.

(** ** Construction from a scope *)

(** [TClingClassInfo], as the constructor reads it: [IsValid()], the
    declarations of [GetDecl()] seen as a [DeclContext] (for a class,
    after [ForceDeclarationOfImplicitMembers]), and what
    [collectAllContexts] puts into [fContexts]. *)
Module TClingClassInfo.
Record t := mk {
  IsValid : bool;
  GetDecl : DeclContext;
  collectAllContexts : list DeclContext
}.
End TClingClassInfo.

Module Import Construct.
Import TClingMethodInfo.

(** The constructor from an interpreter and a [TClingClassInfo] pointer. *)
Definition of_ClassInfo (fuel : nat) (interp : Interpreter.t)
    (ci : option TClingClassInfo.t) : option t :=
  let c := mk None "" interp [] true 0 [] "" None None None in
  match ci with
  | None => Some c
  | Some ci =>
    if negb (TClingClassInfo.IsValid ci) then Some c
    else
      let c := set_fContexts (TClingClassInfo.collectAllContexts ci) c in
      let c := set_fIter (decls_begin (TClingClassInfo.GetDecl ci)) c in
      match InternalNext fuel c with
      | Some (_, c) => Some (set_fFirstTime true c)
      | None => None
      end
  end.

End Construct.

(** ** The queries *)

(** The [EProperty] and [EFunctionProperty] bits of [TDictionary.h].  The
    header is not among the sources, so the queries take the bits as a
    parameter. *)
Module TDictionary.
Record t := mk {
  kIsCompiled : Z;
  kIsConstexpr : Z;
  kIsPublic : Z;
  kIsProtected : Z;
  kIsPrivate : Z;
  kIsStatic : Z;
  kIsConstant : Z;
  kIsReference : Z;
  kIsPointer : Z;
  kIsConstPointer : Z;
  kIsConstMethod : Z;
  kIsVirtual : Z;
  kIsPureVirtual : Z;
  kIsExplicit : Z;
  kIsOperator : Z;
  kIsConversion : Z;
  kIsConstructor : Z;
  kIsDestructor : Z;
  kIsInlined : Z;
  kIsTemplateSpec : Z
}.
End TDictionary.

Module Import Query.
Import TDictionary TClingMethodInfo.

(** [int NArg() const]; [None] where [GetMethodDecl()]'s cast fails. *)
Definition NArg (c : t) : option Z :=
  if negb (IsValid c) then Some (-1)
  else
    match GetMethodDecl c with
    | Some (Some fd) =>
      let num_params := FunctionDecl.getNumParams fd in
      Some (static_cast_int num_params)
    | _ => None
    end.

(** [int NDefaultArg() const] *)
Definition NDefaultArg (c : t) : option Z :=
  if negb (IsValid c) then Some (-1)
  else
    match GetMethodDecl c with
    | Some (Some fd) =>
      let num_params := FunctionDecl.getNumParams fd in
      let min_args := FunctionDecl.getMinRequiredArguments fd in
      let defaulted_params := to_unsigned (num_params - min_args) in
      Some (static_cast_int defaulted_params)
    | _ => None
    end.

(** [if (cond) property |= flag;] *)
Definition or_if (cond : bool) (flag property : Z) : Z :=
  if cond then Z.lor property flag else property.

(** The loop of [Property] that strips arrays, references, pointers and
    member pointers off the return type. *)
Fixpoint strip (K : TDictionary.t) (qt : QualType) (property : Z) : Z * QualType :=
  match qt with
  | ArrayType _ elem => strip K elem property
  | ReferenceType pointee => strip K pointee (Z.lor property (kIsReference K))
  | PointerType isConst pointee =>
    strip K pointee (or_if isConst (kIsConstPointer K) (Z.lor property (kIsPointer K)))
  | MemberPointerType _ pointee => strip K pointee property
  | Plain _ _ | Undeduced _ => (property, qt)
  end.

(** [Property], from the declaration [fd] it has cast to on. *)
Definition Property_of (K : TDictionary.t) (fAccessDecl : option Decl)
    (fd : FunctionDecl.t) : Z :=
  let property := 0 in
  let property := Z.lor property (kIsCompiled K) in
  if FunctionDecl.isDeleted fd then 0
  else
    let property := or_if (FunctionDecl.isConstexpr fd) (kIsConstexpr K) property in
    let accessdecl := default (DFunction fd) fAccessDecl in
    let property :=
      match getAccess accessdecl with
      | AS_public => Z.lor property (kIsPublic K)
      | AS_protected => Z.lor property (kIsProtected K)
      | AS_private => Z.lor property (kIsPrivate K)
      | AS_none => or_if (FunctionDecl.inNamespace fd) (kIsPublic K) property
      end in
    let property :=
      match FunctionDecl.getStorageClass fd with
      | SC_Static => Z.lor property (kIsStatic K)
      | _ => property
      end in
    let qt := FunctionDecl.getReturnType fd in
    let property := or_if (isConstQualified qt) (kIsConstant K) property in
    let '(property, qt) := strip K qt property in
    let property := or_if (isConstQualified qt) (kIsConstant K) property in
    if isa_CXXMethodDecl fd then
      let property :=
        or_if (FunctionDecl.hasConst fd)
          (Z.lor (kIsConstant K) (kIsConstMethod K)) property in
      let property := or_if (FunctionDecl.isVirtual fd) (kIsVirtual K) property in
      let property := or_if (FunctionDecl.isPure fd) (kIsPureVirtual K) property in
      if isa_CXXConstructorDecl fd then
        or_if (FunctionDecl.isExplicit fd) (kIsExplicit K) property
      else if isa_CXXConversionDecl fd then
        or_if (FunctionDecl.isExplicit fd) (kIsExplicit K) property
      else property
    else property.

(** [long Property() const] *)
Definition Property (K : TDictionary.t) (c : t) : option Z :=
  if negb (IsValid c) then Some 0
  else
    match GetMethodDecl c with
    | Some (Some fd) => Some (Property_of K (fAccessDecl c) fd)
    | _ => None
    end.

(** [long ExtraProperty() const] *)
Definition ExtraProperty (K : TDictionary.t) (c : t) : option Z :=
  if negb (IsValid c) then Some 0
  else
    match GetMethodDecl c with
    | Some (Some fd) =>
      let property := 0 in
      if FunctionDecl.isDeleted fd then Some 0
      else
        let property := or_if (FunctionDecl.isOverloadedOperator fd) (kIsOperator K) property in
        let property := or_if (isa_CXXConversionDecl fd) (kIsConversion K) property in
        let property := or_if (isa_CXXConstructorDecl fd) (kIsConstructor K) property in
        let property := or_if (isa_CXXDestructorDecl fd) (kIsDestructor K) property in
        let property := or_if (FunctionDecl.isInlined fd) (kIsInlined K) property in
        let property :=
          match FunctionDecl.getTemplatedKind fd with
          | TK_NonTemplate => property
          | _ => Z.lor property (kIsTemplateSpec K)
          end in
        Some property
    | _ => None
    end.

(** [TClingTypeInfo], as [Type] initialises it: the type it holds, or
    the null [QualType()]. *)
Definition TClingTypeInfo := option QualType.

(** [Type() const].  [ti] is the thread-local [TClingTypeInfo] the
    function initialises and returns the address of; a constructor whose
    context is no type declaration leaves it as it was. *)
Definition Type_ (c : t) (ti : TClingTypeInfo) : option TClingTypeInfo :=
  if negb (IsValid c) then Some None
  else
    match GetMethodDecl c with
    | Some (Some fd) =>
      if isa_CXXConstructorDecl fd then
        match FunctionDecl.getTypeForDeclContext fd with
        | None => Some ti
        | Some qt => Some (Some qt)
        end
      else
        let qt := FunctionDecl.getReturnType fd in
        let qt :=
          if isUndeducedType qt
          then default qt (FunctionDecl.getDeducedReturnType fd)
          else qt in
        Some (Some qt)
    | _ => None
    end.

(** [std::string GetMangledName() const] *)
Definition GetMangledName (c : t) : option string :=
  if negb (IsValid c) then Some ""
  else
    match GetMethodDecl c with
    | Some (Some D) =>
      let GD :=
        if isa_CXXConstructorDecl D then (D, Ctor_Complete)
        else if isa_CXXDestructorDecl D then (D, Dtor_Deleting)
        else (D, Plain_GD) in
      Some (Interpreter.maybeMangleDeclName (fInterp c) GD)
    | _ => None
    end.

End Query.

(** ** [Name] and [Title] *)

(** What [Name] and [Title] consult besides the cursor: the string
    [TCling::GetFunctionName] leaves in an empty output argument, the
    annotation of the redeclaration that
    [TMetaUtils::GetAnnotatedRedeclarable] finds (null when there is no
    such redeclaration, or it has no [AnnotateAttr]),
    [FunctionDecl::isFromASTFile], and [TMetaUtils::GetComment]. *)
Module TMetaUtils.
Record t := mk {
  GetFunctionName : FunctionDecl.t -> string;
  GetAnnotation : FunctionDecl.t -> option string;
  isFromASTFile : FunctionDecl.t -> bool;
  GetComment : FunctionDecl.t -> string
}.
End TMetaUtils.

Module Import Naming.
Import TClingMethodInfo.

Definition set_fTitle (v : string) (c : t) : t :=
  mk (fDecl c) (fNameCache c) (fInterp c) (fContexts c) (fFirstTime c)
     (fContextIdx c) (fIter c) v (fTemplateSpec c) (fUsingIter c) (fAccessDecl c).

(** [const char *Name()]: the string returned, [None] for the null
    pointer, and the cursor with its cache; the outer [None] where
    [GetMethodDecl()]'s cast fails. *)
Definition Name (M : TMetaUtils.t) (c : t) : option (option string * t) :=
  if negb (IsValid c) then Some (None, c)
  else if negb (bool_decide (fNameCache c = "")) then Some (Some (fNameCache c), c)
  else
    match GetMethodDecl c with
    | Some (Some fd) =>
      let c := set_fNameCache (TMetaUtils.GetFunctionName M fd) c in
      Some (Some (fNameCache c), c)
    | _ => None
    end.

(** [const char *Title()] *)
Definition Title (M : TMetaUtils.t) (c : t) : option (option string * t) :=
  if negb (IsValid c) then Some (None, c)
  else
    match GetMethodDecl c with
    | Some (Some FD) =>
      match TMetaUtils.GetAnnotation M FD with
      | Some annotation =>
        let c := set_fTitle annotation c in
        Some (Some (fTitle c), c)
      | None =>
        let c :=
          if negb (TMetaUtils.isFromASTFile M FD)
          then set_fTitle (TMetaUtils.GetComment M FD) c
          else c in
        Some (Some (fTitle c), c)
      end
    | _ => None
    end.

End Naming.

(** ** [rootclingIO.cxx]: the dictionary-file helper *)

(** [std::string] members the helper uses; positions are [size_t]. *)
Module std_string.

Definition SIZE_WIDTH : Z := 64.

Definition to_size_t (z : Z) : Z := z mod 2 ^ SIZE_WIDTH.

Definition size (s : string) : Z := Z.of_nat (String.length s).

(** [s.find_last_of(ch)] for a set holding the one character [ch]: the
    last position of [ch], [None] for [npos]. *)
Fixpoint find_last_of (ch : Ascii.ascii) (s : string) : option Z :=
  match s with
  | EmptyString => None
  | String a s' =>
    match find_last_of ch s' with
    | Some i => Some (i + 1)
    | None => if Ascii.eqb a ch then Some 0 else None
    end
  end.

(** [s.substr(pos, len)], for [pos <= s.size()]: the [min(len, size - pos)]
    characters from [pos] on. *)
Definition substr (s : string) (pos len : Z) : string :=
  String.substring (Z.to_nat pos) (Z.to_nat (Z.min len (size s - pos))) s.

(** [s.substr(pos)] *)
Definition substr_from (s : string) (pos : Z) : string :=
  substr s pos (size s - pos).

(** [0 == s.find(p)]: [s] starts with [p]. *)
Definition starts_with (p s : string) : bool := String.prefix p s.

End std_string.

Module TDataMember.
Record t := mk {
  GetName : string;
  GetTypeName : string;
  IsPersistent : bool
}.
End TDataMember.

Module TEnum.
Record t := mk {
  GetName : string;
  GetTitle : string
}.

Definition SetTitle (title : string) (en : t) : t := mk (GetName en) title.
End TEnum.

Module TDataType.
Record t := mk {
  GetName : string;
  GetType : Z
}.
End TDataType.

Module TClass.
Record t := mk {
  GetName : string;
  GetListOfDataMembers : option (list TDataMember.t);
  GetClassVersion : Z;
  IsLoaded : bool;
  (** after [BuildRealData()], by name *)
  GetListOfRealData : option (list string);
  GetListOfEnums : option (list TEnum.t)
}.
End TClass.

(** The ROOT run time the helper consults: the class table behind
    [TClass::GetClass], the type and enum lists of [gROOT], the name
    utilities of [TClassEdit], the value of the function-local static
    [isUniquePtrOffsetZero], and whether the [TFile] it opens comes up a
    zombie. *)
Module ROOT.
Record t := mk {
  GetClass : gmap string TClass.t;
  GetListOfTypes : list TDataType.t;
  GetListOfEnums : list TEnum.t;
  IsUniquePtr : string -> bool;
  GetSplit : string -> list string;
  isUniquePtrOffsetZero : bool;
  IsZombie : bool
}.
End ROOT.

(** [TCollection::FindObject(name)]: the first object of that name. *)
Definition FindObject {A} (GetName : A -> string) (l : list A) (name : string) : option A :=
  List.find (fun o => bool_decide (GetName o = name)) l.

(** What an array written to the file holds. *)
Inductive TObject :=
  | ProtoClass (cl : TClass.t)
  | DataType (dt : TDataType.t)
  | Enum (en : TEnum.t).

(** A key the helper writes: a bare [TObject], a [TObjArray] written
    under a single key, or the vector of strings given to
    [WriteObjectAny]. *)
Inductive TKey :=
  | KeyObject (name : string)
  | KeyObjArray (name : string) (content : list TObject)
  | KeyStrings (name : string) (content : list string).

(** The [TFile] the helper opens with ["RECREATE"], as the keys it has
    been given since, in order. *)
Module TFile.
Record t := mk {
  GetName : string;
  GetListOfKeys : list TKey
}.

Definition Write (k : TKey) (f : t) : t := mk (GetName f) (GetListOfKeys f ++ [k]).
End TFile.

Module rootclingIO.

(** The file's global accumulators. *)
Record Globals := mkGlobals {
  gPCMFilename : string;
  gClassesToStore : list string;
  gTypedefsToStore : list string;
  gEnumsToStore : list string;
  gAncestorPCMNames : list string
}.


(** [AddStreamerInfoToROOTFile]; [normName] is a [const char] pointer,
    [None] when null.  "Filter unnamed and (anonymous) classes." *)
Definition AddStreamerInfoToROOTFile (normName : option string) (g : Globals) : Globals :=
  match normName with
  | Some (String c0 rest) =>
    if negb (Ascii.eqb c0 "("%char) then
      mkGlobals (gPCMFilename g) (gClassesToStore g ++ [String c0 rest])
        (gTypedefsToStore g) (gEnumsToStore g) (gAncestorPCMNames g)
    else g
  | _ => g
  end.

(** [AddTypedefToROOTFile] *)
Definition AddTypedefToROOTFile (tdname : string) (g : Globals) : Globals :=
  mkGlobals (gPCMFilename g) (gClassesToStore g) (gTypedefsToStore g ++ [tdname])
    (gEnumsToStore g) (gAncestorPCMNames g).

(** [AddEnumToROOTFile] *)
Definition AddEnumToROOTFile (enumname : string) (g : Globals) : Globals :=
  mkGlobals (gPCMFilename g) (gClassesToStore g) (gTypedefsToStore g)
    (gEnumsToStore g ++ [enumname]) (gAncestorPCMNames g).

(** [AddAncestorPCMROOTFile] *)
Definition AddAncestorPCMROOTFile (pcmName : string) (g : Globals) : Globals :=
  mkGlobals (gPCMFilename g) (gClassesToStore g) (gTypedefsToStore g)
    (gEnumsToStore g) (gAncestorPCMNames g ++ [pcmName]).

(** [IsUnsupportedUniquePointer]; [out[2]] is the deleter type, read as
    the empty string should [GetSplit] give fewer parts. *)
Definition IsUnsupportedUniquePointer (env : ROOT.t) (normName : string)
    (dm : TDataMember.t) : bool :=
  let dmTypeName := TDataMember.GetTypeName dm in
  if ROOT.IsUniquePtr env dmTypeName then
    if negb (ROOT.isUniquePtrOffsetZero env) then true
    else
      match ROOT.GetClass env !! dmTypeName with
      | None => true
      | Some clm =>
        match TClass.GetListOfRealData clm with
        | None => true
        | Some upDms =>
          if bool_decide (length upDms = 0%nat) then true
          else
            let out := ROOT.GetSplit env dmTypeName in
            negb (std_string.starts_with "std::default_delete<" (default "" (out !! 2%nat)))
        end
      end
  else false.

(** The loop over the data members of [cl]: [false] when it reaches
    [return false]. *)
Fixpoint check_data_members (env : ROOT.t) (normName : string) (cl : TClass.t)
    (dms : list TDataMember.t) : bool :=
  match dms with
  | [] => true
  | dm :: dms' =>
    if negb (TDataMember.IsPersistent dm) || bool_decide (TClass.GetClassVersion cl = 0)
    then check_data_members env normName cl dms'
    else if IsUnsupportedUniquePointer env normName dm then false
    else check_data_members env normName cl dms'
  end.

(** One round of the loop over [gClassesToStore]: [None] for
    [return false], [Some None] for a class that is not stored,
    [Some (Some o)] for [protoClasses.AddLast]. *)
Definition proto_class (env : ROOT.t) (normName : string) : option (option TObject) :=
  match ROOT.GetClass env !! normName with
  | None => None
  | Some cl =>
    match TClass.GetListOfDataMembers cl with
    | None => None
    | Some dms =>
      if negb (check_data_members env normName cl dms) then None
      else if TClass.IsLoaded cl then Some None
      else Some (Some (ProtoClass cl))
    end
  end.

(** One round of the loop over [gTypedefsToStore]: [None] when nothing is
    added.  "mostly harmless, so skip instead of bailing out" *)
Definition typedef_entry (env : ROOT.t) (dtname : string) : option TObject :=
  match FindObject TDataType.GetName (ROOT.GetListOfTypes env) dtname with
  | None => None
  | Some dt =>
    if bool_decide (TDataType.GetType dt = -1) then Some (DataType dt) else None
  end.

(** One round of the loop over [gEnumsToStore]: [None] for
    [return false]. *)
Definition enum_entry (env : ROOT.t) (enumname : string) : option TObject :=
  match std_string.find_last_of ":"%char enumname with
  | Some lastSepPos =>
    let nsName :=
      std_string.substr enumname 0 (std_string.to_size_t (lastSepPos - 1)) in
    match ROOT.GetClass env !! nsName with
    | None => None
    | Some tclassInstance =>
      match TClass.GetListOfEnums tclassInstance with
      | None => None
      | Some enumListPtr =>
        let unqualifiedEnumName := std_string.substr_from enumname (lastSepPos + 1) in
        match FindObject TEnum.GetName enumListPtr unqualifiedEnumName with
        | Some en => Some (Enum (TEnum.SetTitle nsName en))
        | None => None
        end
      end
    end
  | None =>
    match FindObject TEnum.GetName (ROOT.GetListOfEnums env) enumname with
    | Some en => Some (Enum (TEnum.SetTitle "" en))
    | None => None
    end
  end.

(** [CloseStreamerInfoROOTFile]: the result and the file it leaves.  The
    loops that can [return false] are [mapM] in the option monad. *)
Definition CloseStreamerInfoROOTFile (env : ROOT.t) (g : Globals)
    (writeEmptyRootPCM : bool) : bool * TFile.t :=
  let dictFile := TFile.mk (gPCMFilename g +:+ "?filetype=pcm") [] in
  if writeEmptyRootPCM then (true, TFile.Write (KeyObject "EMPTY") dictFile)
  else
    match mapM (proto_class env) (gClassesToStore g) with
    | None => (false, dictFile)
    | Some stored =>
      let protoClasses := omap id stored in
      let typedefs := omap (typedef_entry env) (gTypedefsToStore g) in
      match mapM (enum_entry env) (gEnumsToStore g) with
      | None => (false, dictFile)
      | Some enums =>
        if ROOT.IsZombie env then (false, dictFile)
        else
          (true,
           TFile.Write (KeyStrings "__AncestorPCMNames" (gAncestorPCMNames g))
             (TFile.Write (KeyObjArray "__Enums" enums)
                (TFile.Write (KeyObjArray "__Typedefs" typedefs)
                   (TFile.Write (KeyObjArray "__ProtoClasses" protoClasses) dictFile))))
      end
    end.

End rootclingIO.

(** * Terms of the properties, and example data *)

(** ** Terms for the dictionary-file helper *)

Module rootclingIO_defs.
Import rootclingIO.

(** A class name "cannot be resolved": [TClass::GetClass] finds nothing. *)
Definition class_unresolved (env : ROOT.t) (normName : string) : Prop :=
  ROOT.GetClass env !! normName = None.

(** A class "lacks required metadata": it has no list of data members, or
    a persistent member of a versioned class is a [unique_ptr] the I/O
    does not support. *)
Definition class_lacks_metadata (env : ROOT.t) (normName : string) : Prop :=
  exists cl, ROOT.GetClass env !! normName = Some cl /\
    (TClass.GetListOfDataMembers cl = None \/
     exists dms dm, TClass.GetListOfDataMembers cl = Some dms /\ dm ∈ dms /\
       TDataMember.IsPersistent dm = true /\ TClass.GetClassVersion cl <> 0 /\
       IsUnsupportedUniquePointer env normName dm = true).

Definition class_fails (env : ROOT.t) (normName : string) : Prop :=
  class_unresolved env normName \/ class_lacks_metadata env normName.

(** What the class record holds for a registered name: a proto class,
    unless the class already has a loaded dictionary. *)
Definition unloaded_proto (env : ROOT.t) (normName : string) : option TObject :=
  match ROOT.GetClass env !! normName with
  | Some cl => if TClass.IsLoaded cl then None else Some (ProtoClass cl)
  | None => None
  end.

(** A typedef name "cannot be resolved": [gROOT]'s list of types has no
    object of that name. *)
Definition typedef_unresolved (env : ROOT.t) (dtname : string) : Prop :=
  FindObject TDataType.GetName (ROOT.GetListOfTypes env) dtname = None.

(** An enum name fails: for a name with a [':'], the enclosing scope is
    no known class, or that class has no enum list, or the list does not
    hold the enum; for a name without one, [gROOT]'s list of enums does
    not hold it. *)
Definition enum_fails (env : ROOT.t) (enumname : string) : Prop :=
  match std_string.find_last_of ":"%char enumname with
  | Some lastSepPos =>
    let nsName :=
      std_string.substr enumname 0 (std_string.to_size_t (lastSepPos - 1)) in
    ROOT.GetClass env !! nsName = None \/
    exists cl, ROOT.GetClass env !! nsName = Some cl /\
      (TClass.GetListOfEnums cl = None \/
       exists enums, TClass.GetListOfEnums cl = Some enums /\
         FindObject TEnum.GetName enums
           (std_string.substr_from enumname (lastSepPos + 1)) = None)
  | None => FindObject TEnum.GetName (ROOT.GetListOfEnums env) enumname = None
  end.

(** The environment and the accumulators of the example below: no class,
    type or enum is known, the file opens, and one typedef name was
    registered. *)
Definition bare_env : ROOT.t :=
  ROOT.mk ∅ [] [] (fun _ => false) (fun _ => []) true false.

Definition one_typedef : Globals := mkGlobals "dict.pcm" [] ["MyInt_t"] [] [].

End rootclingIO_defs.

(** ** Terms for the queries *)

Module Query_defs.
Import TDictionary TClingMethodInfo.

Definition void_type : QualType := Plain false "void".

(** A free function [void name()] at namespace scope. *)
Definition free_function (name : string) : FunctionDecl.t :=
  FunctionDecl.mk name Function false false false AS_none true None SC_None
    void_type None 0 0 false false false false false false TK_NonTemplate.

(** A member function [void name(int, int = 0)] with the given access. *)
Definition member_function (name : string) (access : AccessSpecifier) : FunctionDecl.t :=
  FunctionDecl.mk name CXXMethod false false false access false
    (Some (Plain false "Derived")) SC_None void_type None 2 1 false false
    false false false false TK_NonTemplate.

(** A constructor of class [cls], implicit or not. *)
Definition constructor (cls : string) (implicit : bool) : FunctionDecl.t :=
  FunctionDecl.mk cls CXXConstructor false false implicit AS_public false
    (Some (Plain false cls)) SC_None void_type None 0 0 false false false
    false false true TK_NonTemplate.

(** A Sema that knows one inheriting constructor, [Derived::Derived], for
    every base constructor, a lookup helper that finds nothing, and a
    mangler that answers with the plain name. *)
Definition simple_interp : Interpreter.t :=
  Interpreter.mk (fun _ _ => Some (constructor "Derived" false))
    (fun _ => None) (fun GD => FunctionDecl.getNameAsString GD.1).

(** A cursor in the middle of a using-declaration: its sub-iterator is at
    [shadows], and the outer iterator at the using-declaration [ud]. *)
Definition in_using (interp : Interpreter.t) (ud : UsingDecl.t)
    (shadows : list UsingShadowDecl.t) : t :=
  mk None "" interp [[DUsing ud]] false 0 [DUsing ud] "" None
    (Some (UsingIterator.mk interp shadows)) (Some (DUsing ud)).

Definition ctor_shadow (base_ctor : FunctionDecl.t) : UsingShadowDecl.t :=
  UsingShadowDecl.mk true (TargetFunction base_ctor).

(** What Clang guarantees of a function declaration's counts: the
    required arguments are among the parameters, and the parameters are
    few enough for [int]. *)
Definition counts_in_range (fd : FunctionDecl.t) : Prop :=
  0 <= FunctionDecl.getMinRequiredArguments fd <= FunctionDecl.getNumParams fd /\
  FunctionDecl.getNumParams fd < 2 ^ (UINT_WIDTH - 1).

Definition access_mask (K : TDictionary.t) : Z :=
  Z.lor (kIsPublic K) (Z.lor (kIsProtected K) (kIsPrivate K)).

(** The access level a bitmask reports: its part under the three access
    bits. *)
Definition reported_access (K : TDictionary.t) (property : Z) : Z :=
  Z.land property (access_mask K).

(** The other bits [Property] can set. *)
Definition other_bits (K : TDictionary.t) : list Z :=
  [kIsCompiled K; kIsConstexpr K; kIsStatic K; kIsConstant K; kIsReference K;
   kIsPointer K; kIsConstPointer K; kIsConstMethod K; kIsVirtual K;
   kIsPureVirtual K; kIsExplicit K].

(** The header keeps the access bits apart from the other bits. *)
Definition access_bits_apart (K : TDictionary.t) : Prop :=
  Forall (fun flag => Z.land flag (access_mask K) = 0) (other_bits K).

(** The bit that stands for an access specifier, given whether the
    function lives in a namespace. *)
Definition access_bit (K : TDictionary.t) (access : AccessSpecifier)
    (inNamespace : bool) : Z :=
  match access with
  | AS_public => kIsPublic K
  | AS_protected => kIsProtected K
  | AS_private => kIsPrivate K
  | AS_none => if inNamespace then kIsPublic K else 0
  end.

(** Bits as in ROOT's header, for the examples. *)
Definition root_bits : TDictionary.t :=
  TDictionary.mk 0x000c0000 0x02000000 0x00000200 0x00000400 0x00000800
    0x00004000 0x00100000 0x00010000 0x00001000 0x00400000 0x10000000
    0x00000080 0x00000100 0x04000000 0x00000008 0x00000002 0x00000001
    0x00000004 0x00000010 0x00000020.

(** The scope list is exhausted: the outer iterator is at its end, and
    on a first call no context is left after the current one. *)
Definition exhausted (c : t) : Prop :=
  fIter c = [] /\
  (fFirstTime c = true ->
   Z.of_nat (length (fContexts c)) <= fContextIdx c + 1 < 2 ^ UINT_WIDTH).

(** What the constructors establish and [InternalNext] keeps of an
    iterating cursor: while the outer iterator is at its end, no
    specialization is held and a using-sub-iterator, if still there, is
    at its end too. *)
Definition consistent (c : t) : Prop :=
  fDecl c = None /\
  (fIter c = [] ->
   fTemplateSpec c = None /\
   forall it, fUsingIter c = Some it -> UsingIterator.to_bool it = false).

(** A cursor made from an absent scope. *)
Definition absent_scope_cursor : t := mk None "" simple_interp [] true 0 [] "" None None None.

End Query_defs.

(** ** Terms for [InternalNext] *)

Module Cursor_defs.
Import TClingMethodInfo Query_defs.

(** A using-sub-iterator, if the cursor still has one, is at its end. *)
Definition using_done (c : t) : Prop :=
  forall it, fUsingIter c = Some it -> UsingIterator.to_bool it = false.

(** The state a [Flow] carries. *)
Definition state_of (fl : Flow) : t :=
  match fl with Return _ c | Next_stmt c => c end.

(** [n] calls of [Next] in a row: what each call returned, and the
    cursor they leave. *)
Fixpoint Next_repeat (fuel n : nat) (c : t) : option (list Z * t) :=
  match n with
  | O => Some ([], c)
  | S n' =>
    match Next fuel c with
    | Some (r, c1) =>
      match Next_repeat fuel n' c1 with
      | Some (rs, c2) => Some (r :: rs, c2)
      | None => None
      end
    | None => None
    end
  end.

(** The declarations a visit of [d] can cost: an inline namespace may be
    appended to the scope list and walked later. *)
Fixpoint weight (d : Decl) : nat :=
  match d with
  | DNamespace _ _ decls =>
    (2 + (fix go (l : list Decl) : nat :=
            match l with
            | [] => 0
            | d' :: l' => weight d' + go l'
            end) decls)%nat
  | _ => 1%nat
  end.

Definition weights (ds : list Decl) : nat := sum_list_with weight ds.

(** The contexts after the current one, each with its declarations. *)
Definition pending (c : t) : nat :=
  sum_list_with (fun dc => S (weights dc))
    (drop (S (Z.to_nat (fContextIdx c))) (fContexts c)).

(** What lies ahead of the outer iterator, its own position included. *)
Definition ahead (c : t) : nat := (weights (fIter c) + pending c)%nat.

(** A bound on the rounds of the loop of [InternalNext]. *)
Definition work (c : t) : nat :=
  ((if fFirstTime c then S (weights (fIter c)) else weights (tail (fIter c)))
   + pending c)%nat.

(** [fContextIdx] is an unsigned value that the rounds ahead cannot carry
    past [2^32]. *)
Definition headroom (c : t) : Prop :=
  0 <= fContextIdx c /\
  fContextIdx c + Z.of_nat (work c) + 1 < 2 ^ UINT_WIDTH.

(** A function template as C1 describes it: every template parameter has
    a default argument, there is no unexpanded parameter pack, no
    template argument is required, and the scope-qualified lookup finds a
    function that is not deleted. *)
Definition instantiable_with_defaults (interp : Interpreter.t)
    (ftd : FunctionTemplateDecl.t) : Prop :=
  Forall (fun p => TemplateParm.hasDefaultArgument p = true)
    (FunctionTemplateDecl.getTemplateParameters ftd) /\
  FunctionTemplateDecl.containsUnexpandedParameterPack ftd = false /\
  FunctionTemplateDecl.getMinRequiredArguments ftd = 0 /\
  exists fd, Interpreter.findFunctionProto interp ftd = Some fd /\
    FunctionDecl.isDeleted fd = false.

(** [template <class T = int> void g()], and an interpreter whose lookup
    helper finds its instantiation. *)
Definition g_template : FunctionTemplateDecl.t :=
  FunctionTemplateDecl.mk "g" AS_none [TemplateParm.mk TemplateTypeParm true false]
    false 0.

Definition lookup_interp : Interpreter.t :=
  Interpreter.mk (fun _ _ => None) (fun _ => Some (free_function "g"))
    (fun GD => FunctionDecl.getNameAsString GD.1).

(** The cursor as the constructor sets it up before its first
    [InternalNext()]. *)
Definition at_begin (interp : Interpreter.t) (dc : DeclContext) : t :=
  mk None "" interp [dc] true 0 (decls_begin dc) "" None None None.

Definition g_method : FunctionDecl.t := member_function "g" AS_public.

(** [using Base::f;] for which Clang built no shadow declaration. *)
Definition empty_using : UsingDecl.t := UsingDecl.mk AS_private [].

(** [using Base::x;] whose one shadow stands for a data member. *)
Definition field_using : UsingDecl.t :=
  UsingDecl.mk AS_private [UsingShadowDecl.mk false (TargetOther "x")].

(** A class that declares [ud] and then the method [g]. *)
Definition class_with (ud : UsingDecl.t) : TClingClassInfo.t :=
  TClingClassInfo.mk true [DUsing ud; DFunction g_method]
    [[DUsing ud; DFunction g_method]].

(** The cursor at [g], reached past [ud], with what it keeps of [ud]. *)
Definition at_g (ud : UsingDecl.t) (it : option UsingIterator.t)
    (access : option Decl) : t :=
  mk None "" simple_interp [[DUsing ud; DFunction g_method]] false 0
    [DFunction g_method] "" None it access.

(** The current declarations of a CINT-style loop [while (m.Next())],
    at most [n] rounds of it. *)
Fixpoint visits (fuel n : nat) (c : t) : option (list (option Decl)) :=
  match n with
  | O => Some []
  | S n' =>
    match Next fuel c with
    | Some (r, c1) =>
      if decide (r = 0) then Some []
      else (fun rest => GetDecl c1 :: rest) <$> visits fuel n' c1
    | None => None
    end
  end.

Definition f_method : FunctionDecl.t := member_function "f" AS_public.

Definition h_method : FunctionDecl.t := member_function "h" AS_protected.

Definition deleted_method : FunctionDecl.t :=
  FunctionDecl.mk "operator=" CXXMethod true false false AS_public false
    (Some (Plain false "Derived")) SC_None void_type None 1 1 false false
    false false true false TK_NonTemplate.

Definition destructor : FunctionDecl.t :=
  FunctionDecl.mk "~Derived" CXXDestructor false false true AS_public false
    (Some (Plain false "Derived")) SC_None void_type None 0 0 false false
    false false false true TK_NonTemplate.

(** [f(); template <class T = int> g(); using Base::h; operator=(...) =
    delete; ~Derived()], where [Base::h] is one method. *)
Definition scenario : DeclContext :=
  [DFunction f_method; DFunctionTemplate g_template;
   DUsing (UsingDecl.mk AS_public [UsingShadowDecl.mk false (TargetFunction h_method)]);
   DFunction deleted_method; DFunction destructor].

End Cursor_defs.

(** ** Terms for the records of the dictionary file *)

Module Registration_defs.
Import rootclingIO rootclingIO_defs.

(** What each entry of an array written under [name] is: a proto class
    of a registered class without a loaded dictionary; a registered
    typedef of kind [-1] from [gROOT]'s list of types; or an enum that a
    registered name led to, named by the part of that name after its last
    colon and titled with the scope before it. *)
Definition record_entry (env : ROOT.t) (g : Globals) (name : string) (o : TObject) : Prop :=
  match o with
  | ProtoClass cl =>
    name = "__ProtoClasses" /\ TClass.IsLoaded cl = false /\
    exists normName, normName ∈ gClassesToStore g /\
      ROOT.GetClass env !! normName = Some cl
  | DataType dt =>
    name = "__Typedefs" /\ TDataType.GetType dt = -1 /\
    TDataType.GetName dt ∈ gTypedefsToStore g /\ dt ∈ ROOT.GetListOfTypes env
  | Enum en =>
    name = "__Enums" /\
    exists enumname, enumname ∈ gEnumsToStore g /\
      match std_string.find_last_of ":"%char enumname with
      | Some lastSepPos =>
        TEnum.GetName en = std_string.substr_from enumname (lastSepPos + 1) /\
        TEnum.GetTitle en =
          std_string.substr enumname 0 (std_string.to_size_t (lastSepPos - 1))
      | None => TEnum.GetName en = enumname /\ TEnum.GetTitle en = ""
      end
  end.

Definition key_entry (env : ROOT.t) (g : Globals) (writeEmptyRootPCM : bool)
    (k : TKey) : Prop :=
  match k with
  | KeyObject name => writeEmptyRootPCM = true /\ name = "EMPTY"
  | KeyObjArray name content =>
    writeEmptyRootPCM = false /\ Forall (record_entry env g name) content
  | KeyStrings name content =>
    writeEmptyRootPCM = false /\ name = "__AncestorPCMNames" /\
    content = gAncestorPCMNames g
  end.

(** One call of a registration function. *)
Inductive Registration :=
  | RegisterClass (normName : option string)
  | RegisterTypedef (tdname : string)
  | RegisterEnum (enumname : string)
  | RegisterAncestor (pcmName : string).

Definition register (r : Registration) (g : Globals) : Globals :=
  match r with
  | RegisterClass normName => AddStreamerInfoToROOTFile normName g
  | RegisterTypedef tdname => AddTypedefToROOTFile tdname g
  | RegisterEnum enumname => AddEnumToROOTFile enumname g
  | RegisterAncestor pcmName => AddAncestorPCMROOTFile pcmName g
  end.

(** The calls [rs], first to last. *)
Definition register_all (rs : list Registration) (g : Globals) : Globals :=
  foldl (fun g r => register r g) g rs.

(** A member the unique-pointer check leaves alone: it is transient, or
    its type is no [unique_ptr]. *)
Definition exempt_member (env : ROOT.t) (dm : TDataMember.t) : Prop :=
  TDataMember.IsPersistent dm = false \/
  ROOT.IsUniquePtr env (TDataMember.GetTypeName dm) = false.

(** A class [NS] with the enum [Color], and nothing else. *)
Definition scope_env (ns : string) : ROOT.t :=
  ROOT.mk {[ ns := TClass.mk ns (Some []) 1 false None (Some [TEnum.mk "Color" ""]) ]}
    [] [] (fun _ => false) (fun _ => []) true false.

(** An unversioned class that holds a [unique_ptr] with a custom
    deleter. *)
Definition holder : TClass.t :=
  TClass.mk "Holder" (Some [TDataMember.mk "fPtr" "unique_ptr<T,Del>" true]) 0 false
    None None.

Definition holder_env : ROOT.t :=
  ROOT.mk {[ "Holder" := holder ]} [] [] (fun _ => true) (fun _ => []) true false.

End Registration_defs.

(** ** Terms for the bits of [Property] and [ExtraProperty] *)

Module Property_defs.
Import TDictionary TClingMethodInfo.

(** What the loop of [Property] meets on its way through the return
    type: a reference, a pointer, a [const] pointer; and the type it
    stops at. *)
Fixpoint strips_reference (qt : QualType) : bool :=
  match qt with
  | ReferenceType _ => true
  | ArrayType _ qt' | PointerType _ qt' | MemberPointerType _ qt' => strips_reference qt'
  | Plain _ _ | Undeduced _ => false
  end.

Fixpoint strips_pointer (qt : QualType) : bool :=
  match qt with
  | PointerType _ _ => true
  | ArrayType _ qt' | ReferenceType qt' | MemberPointerType _ qt' => strips_pointer qt'
  | Plain _ _ | Undeduced _ => false
  end.

Fixpoint strips_const_pointer (qt : QualType) : bool :=
  match qt with
  | PointerType isConst qt' => isConst || strips_const_pointer qt'
  | ArrayType _ qt' | ReferenceType qt' | MemberPointerType _ qt' =>
    strips_const_pointer qt'
  | Plain _ _ | Undeduced _ => false
  end.

Fixpoint stripped (qt : QualType) : QualType :=
  match qt with
  | ArrayType _ qt' | ReferenceType qt' | PointerType _ qt'
  | MemberPointerType _ qt' => stripped qt'
  | Plain _ _ | Undeduced _ => qt
  end.

(** [getStorageClass() == SC_Static] *)
Definition isStatic (fd : FunctionDecl.t) : bool :=
  match FunctionDecl.getStorageClass fd with SC_Static => true | _ => false end.

(** The flags [Property] sets, and those [ExtraProperty] sets. *)
Definition Property_flags (K : TDictionary.t) : list Z :=
  [kIsCompiled K; kIsConstexpr K; kIsPublic K; kIsProtected K; kIsPrivate K;
   kIsStatic K; kIsConstant K; kIsReference K; kIsPointer K; kIsConstPointer K;
   kIsConstMethod K; kIsVirtual K; kIsPureVirtual K; kIsExplicit K].

Definition ExtraProperty_flags (K : TDictionary.t) : list Z :=
  [kIsOperator K; kIsConversion K; kIsConstructor K; kIsDestructor K;
   kIsInlined K; kIsTemplateSpec K].

(** No two flags of a list share a bit. *)
Definition disjoint (f g : Z) : bool := Z.land f g =? 0.

Fixpoint apart (flags : list Z) : bool :=
  match flags with
  | [] => true
  | f :: flags' => forallb (disjoint f) flags' && apart flags'
  end.

(** [getTemplatedKind() != TK_NonTemplate] *)
Definition isTemplated (fd : FunctionDecl.t) : bool :=
  match FunctionDecl.getTemplatedKind fd with TK_NonTemplate => false | _ => true end.

(** The part of a bitmask under a flag: the flag when the condition
    holds, and nothing when it does not. *)
Definition flag_if (cond : bool) (flag : Z) : Z := if cond then flag else 0.

(** [static int* make()] at namespace scope, and the member
    [virtual const char* const& data() const], defined in its class. *)
Definition static_function : FunctionDecl.t :=
  FunctionDecl.mk "make" Function false false false AS_none true None SC_Static
    (PointerType false (Plain false "int")) None 0 0 false false false false
    false false TK_NonTemplate.

Definition const_method : FunctionDecl.t :=
  FunctionDecl.mk "data" CXXMethod false false false AS_public false
    (Some (Plain false "Buffer")) SC_None
    (ReferenceType (PointerType true (Plain true "char"))) None 0 0 true true
    false false false true TK_NonTemplate.

End Property_defs.

(** ** Terms for the cursor between two steps *)

Module Step_defs.
Import TDictionary TClingMethodInfo Query_defs Cursor_defs.

(** Every query answers: none runs into the failed cast of
    [GetMethodDecl()]. *)
Definition answers (K : TDictionary.t) (ti : TClingTypeInfo) (c : t) : Prop :=
  is_Some (NArg c) /\ is_Some (NDefaultArg c) /\ is_Some (Property K c) /\
  is_Some (ExtraProperty K c) /\ is_Some (Type_ c ti) /\ is_Some (GetMangledName c).

(** The current declaration is a function, or there is none. *)
Definition on_function (c : t) : Prop :=
  GetDecl c = None \/ exists fd, GetDecl c = Some (DFunction fd).

(** Where the classification stops the outer iterator: at a function
    that is not deleted, or at a using-declaration, with the
    sub-iterator at its first shadow and the using-declaration as the
    access declaration. *)
Definition stopped (c : t) : Prop :=
  match fIter c with
  | DFunction FD :: _ => FunctionDecl.isDeleted FD = false
  | DUsing udecl :: _ =>
    fUsingIter c = Some (UsingIterator.of_decl (fInterp c) udecl) /\
    fAccessDecl c = Some (DUsing udecl)
  | _ => False
  end.

(** Names as Clang spells them, no annotations, every declaration from
    an AST file. *)
Definition plain_names : TMetaUtils.t :=
  TMetaUtils.mk FunctionDecl.getNameAsString (fun _ => None) (fun _ => true)
    (fun _ => "").

(** As [plain_names], but the method [f] carries an annotation. *)
Definition f_annotated : TMetaUtils.t :=
  TMetaUtils.mk FunctionDecl.getNameAsString
    (fun fd => if String.eqb (FunctionDecl.getNameAsString fd) "f"
               then Some "about f" else None)
    (fun _ => true) (fun _ => "").

(** The cursor over a class that declares [f] and [g], stopped at the
    declarations [rest]. *)
Definition in_methods (rest : decl_iterator) : t :=
  mk None "" simple_interp [[DFunction f_method; DFunction g_method]] false 0
    rest "" None None None.

(** A class that declares the methods [f] and [g]. *)
Definition two_methods : TClingClassInfo.t :=
  TClingClassInfo.mk true [DFunction f_method; DFunction g_method]
    [[DFunction f_method; DFunction g_method]].

End Step_defs.

(** ** Terms for the order of the walk *)

Module Walk_defs.
Import TClingMethodInfo Query_defs Cursor_defs.

(** The contexts the cursor has not entered yet. *)
Definition queue (c : t) : list DeclContext :=
  drop (S (Z.to_nat (fContextIdx c))) (fContexts c).

(** What the classification appends to the scope list on passing [d]:
    "Collect internal [__cling_N5xxx] inline namespaces; they will be
    traversed later". *)
Definition collected (d : Decl) : list DeclContext :=
  match d with
  | DNamespace inTU isInline decls => if inTU && isInline then [decls] else []
  | _ => []
  end.

(** [walk it q s]: from the position [it] of the outer iterator, with the
    contexts [q] waiting, the outer iterator comes by the declarations
    [s], in this order. *)
Inductive walk : decl_iterator -> list DeclContext -> list Decl -> Prop :=
  | walk_end : walk [] [] []
  | walk_context dc q s : walk (decls_begin dc) q s -> walk [] (dc :: q) s
  | walk_decl d it q s : walk it (q ++ collected d) s -> walk (d :: it) q (d :: s).

(** The declarations the classification returns at. *)
Definition is_stop (d : Decl) : bool :=
  match d with
  | DFunction FD => negb (FunctionDecl.isDeleted FD)
  | DUsing _ => true
  | _ => false
  end.

(** The first declaration of [s] the classification returns at, and the
    declarations after it. *)
Fixpoint next_stop (s : list Decl) : option (Decl * list Decl) :=
  match s with
  | [] => None
  | d :: s' => if is_stop d then Some (d, s') else next_stop s'
  end.

(** What the later steps of a sub-iterator report, from the shadows
    after the one it is at: the functions they resolve to. *)
Fixpoint later (interp : Interpreter.t) (shadows : list UsingShadowDecl.t)
    : list (option Decl) :=
  match shadows with
  | [] => []
  | _ :: rest =>
    match UsingIterator.deref (UsingIterator.mk interp shadows) with
    | Some fd => [Some (DFunction fd)]
    | None => []
    end ++ later interp rest
  end.

(** The current declarations of a loop [while (m.Next())] that comes by
    the declarations [s]; [stale] tells that the cursor still holds the
    sub-iterator of a using-declaration without shadows.  A function
    that is not deleted is reported, as null while [stale]; a
    using-declaration reports what its first shadow resolves to, be it
    null, and then the later shadows that resolve. *)
Fixpoint reports (interp : Interpreter.t) (stale : bool) (s : list Decl)
    : list (option Decl) :=
  match s with
  | [] => []
  | DFunction FD :: s' =>
    if FunctionDecl.isDeleted FD then reports interp stale s'
    else (if stale then None else Some (DFunction FD)) :: reports interp stale s'
  | DUsing udecl :: s' =>
    match UsingDecl.shadows udecl with
    | [] => None :: reports interp true s'
    | _ :: rest =>
      (DFunction <$> UsingIterator.deref (UsingIterator.of_decl interp udecl))
        :: later interp rest ++ reports interp false s'
    end
  | _ :: s' => reports interp stale s'
  end.

(** What is still to report from a cursor stopped in front of [s]. *)
Definition expected (c : t) (s : list Decl) : list (option Decl) :=
  match fUsingIter c with
  | Some it =>
    if UsingIterator.to_bool it
    then later (UsingIterator.fInterp it) (tail (UsingIterator.fIter it))
           ++ reports (fInterp c) false s
    else reports (fInterp c) true s
  | None => reports (fInterp c) false s
  end.

(** The rest of a round of the loop, from the test of the outer
    iterator on. *)
Definition after_advance (fuel_contexts fuel : nat) (c : t) : option (Z * t) :=
  match next_context fuel_contexts c with
  | None => None
  | Some (Return r c) => Some (r, c)
  | Some (Next_stmt c) =>
    match classify c with
    | Return r c => Some (r, c)
    | Next_stmt c => loop fuel c
    end
  end.

(** [fContextIdx] is the index of a context, and the scope list cannot
    grow past what an [unsigned int] counts while the cursor comes by
    [s]. *)
Definition room (c : t) (s : list Decl) : Prop :=
  0 <= fContextIdx c /\
  (Z.to_nat (fContextIdx c) < length (fContexts c))%nat /\
  Z.of_nat (length (fContexts c) + length s) + 1 < 2 ^ UINT_WIDTH.

(** What the rest of a round comes to, from the state [c1] with the
    declarations [s] ahead: it returns [1] at the first declaration of
    [s] that is a function, not deleted, or a using-declaration, for
    which it sets up the sub-iterator; and [0], with the scope list
    exhausted, when [s] has no such declaration. *)
Definition lands (c1 : t) (s : list Decl) (res : option (Z * t)) : Prop :=
  match next_stop s with
  | None =>
    exists c', res = Some (0, c') /\ fIter c' = [] /\
      fDecl c' = fDecl c1 /\ fFirstTime c' = false /\ fTemplateSpec c' = None /\
      fUsingIter c' = fUsingIter c1 /\ fInterp c' = fInterp c1 /\
      Z.of_nat (length (fContexts c')) <= fContextIdx c' + 1 < 2 ^ UINT_WIDTH
  | Some (d, s') =>
    exists c' it', res = Some (1, c') /\ fIter c' = d :: it' /\
      walk it' (queue c') s' /\ room c' s' /\
      fDecl c' = fDecl c1 /\ fFirstTime c' = false /\ fTemplateSpec c' = None /\
      fInterp c' = fInterp c1 /\
      (length (queue c') + 2 * length s' <= length (queue c1) + 2 * length s)%nat /\
      match d with
      | DUsing udecl =>
        fUsingIter c' = Some (UsingIterator.of_decl (fInterp c1) udecl) /\
        fAccessDecl c' = Some d
      | _ => fUsingIter c' = fUsingIter c1
      end
  end.

(** A cursor between two calls of [Next], stopped at a declaration with
    [s] still to come. *)
Definition at_stop (c : t) (s : list Decl) : Prop :=
  fDecl c = None /\ fFirstTime c = false /\ fTemplateSpec c = None /\
  (forall it, fUsingIter c = Some it ->
     UsingIterator.fInterp it = fInterp c) /\
  room c s /\
  exists d it, fIter c = d :: it /\ walk it (queue c) s.

(** What a call of [Next] on a stopped cursor comes to: it returns [0]
    when nothing is left to report, and otherwise [1], at a cursor whose
    current declaration is the first report still expected. *)
Definition steps (c : t) (s : list Decl) (todo : list (option Decl))
    (res : option (Z * t)) : Prop :=
  exists r c1, res = Some (r, c1) /\
    ((r = 0 /\ todo = [] /\ fIter c1 = [] /\
      Z.of_nat (length (fContexts c1)) <= fContextIdx c1 + 1 < 2 ^ UINT_WIDTH) \/
     (r = 1 /\ exists s1, at_stop c1 s1 /\ todo = GetDecl c1 :: expected c1 s1 /\
        (length (queue c1) + 2 * length s1 <= length (queue c) + 2 * length s)%nat)).

(** A using-declaration. *)
Definition is_using (d : Decl) : bool :=
  match d with DUsing _ => true | _ => false end.

(** A namespace scope [f(); inline namespace { g(); } h();], the inline
    namespace being one of the translation unit. *)
Definition with_inline_namespace : DeclContext :=
  [DFunction (free_function "f");
   DNamespace true true [DFunction (free_function "g")];
   DFunction (free_function "h")].

End Walk_defs.

(** ** Terms for what a step reports *)

Module Found_defs.
Import TDictionary TClingMethodInfo Query_defs Cursor_defs.

(** [using Base::operator=;] whose one shadow stands for the deleted
    method, and a class that declares it. *)
Definition deleted_using : UsingDecl.t :=
  UsingDecl.mk AS_public [UsingShadowDecl.mk false (TargetFunction deleted_method)].

Definition class_using_deleted : TClingClassInfo.t :=
  TClingClassInfo.mk true [DUsing deleted_using] [[DUsing deleted_using]].

End Found_defs.

(** * Properties of the dictionary-file helper *)

Module rootclingIO_facts.
Import rootclingIO.
Import rootclingIO_defs.

Lemma check_data_members_false env normName cl dms :
  check_data_members env normName cl dms = false <->
  exists dm, dm ∈ dms /\ TDataMember.IsPersistent dm = true /\
    TClass.GetClassVersion cl <> 0 /\
    IsUnsupportedUniquePointer env normName dm = true.
Proof.
  induction dms as [|dm dms IH]; simpl.
  - split; [discriminate | intros (dm & Hin & _); inversion Hin].
  - destruct (TDataMember.IsPersistent dm) eqn:Hp; simpl.
    + case_bool_decide as Hv; simpl.
      * rewrite IH. split.
        -- intros (dm' & Hin & H); exists dm'; split; [by right | done].
        -- intros (dm' & Hin & Hp' & Hv' & Hu). done.
      * destruct (IsUnsupportedUniquePointer env normName dm) eqn:Hu.
        -- split; [intros _ | done]. exists dm. repeat split; try done. by left.
        -- rewrite IH. split.
           ++ intros (dm' & Hin & H); exists dm'; split; [by right | done].
           ++ intros (dm' & Hin & Hp' & Hv' & Hu').
              apply elem_of_cons in Hin as [-> | Hin]; [congruence |].
              by exists dm'.
    + rewrite IH. split.
      * intros (dm' & Hin & H); exists dm'; split; [by right | done].
      * intros (dm' & Hin & Hp' & Hv' & Hu').
        apply elem_of_cons in Hin as [-> | Hin]; [congruence |].
        by exists dm'.
Qed.

Lemma proto_class_None env normName :
  proto_class env normName = None <-> class_fails env normName.
Proof.
  unfold proto_class, class_fails, class_unresolved, class_lacks_metadata.
  destruct (ROOT.GetClass env !! normName) as [cl|] eqn:Hcl.
  - destruct (TClass.GetListOfDataMembers cl) as [dms|] eqn:Hdms.
    + destruct (check_data_members env normName cl dms) eqn:Hchk; simpl.
      * split.
        -- by destruct (TClass.IsLoaded cl).
        -- intros [? | (cl' & [= <-] & [? | (dms' & dm & Hd & H)])]; try congruence.
           assert (dms' = dms) as -> by congruence.
           assert (check_data_members env normName cl dms = false); [|congruence].
           apply check_data_members_false. by exists dm.
      * split; [intros _ | done]. right. exists cl. split; [done | right].
        apply check_data_members_false in Hchk as (dm & H). by exists dms, dm.
    + split; [intros _ | done]. right. exists cl. split; [done | by left].
  - split; [intros _; by left | done].
Qed.

Lemma enum_entry_None env enumname :
  enum_entry env enumname = None <-> enum_fails env enumname.
Proof.
  unfold enum_entry, enum_fails.
  destruct (std_string.find_last_of ":"%char enumname) as [pos|]; simpl.
  - destruct (ROOT.GetClass env !! _) as [cl|] eqn:Hcl.
    + destruct (TClass.GetListOfEnums cl) as [enums|] eqn:Hen.
      * destruct (FindObject TEnum.GetName enums _) as [en|] eqn:Hf.
        -- split; [done |].
           intros [? | (cl' & [= <-] & [? | (enums' & He & Hn)])]; congruence.
        -- split; [intros _ | done]. right. exists cl. split; [done | right].
           by exists enums.
      * split; [intros _ | done]. right. exists cl. split; [done | by left].
    + split; [intros _; by left | done].
  - by destruct (FindObject TEnum.GetName (ROOT.GetListOfEnums env) enumname).
Qed.

Lemma stored_protos env classes stored :
  mapM (proto_class env) classes = Some stored ->
  omap id stored = omap (unloaded_proto env) classes.
Proof.
  intros H. apply mapM_Some_1 in H.
  induction H as [|n y classes stored Hn _ IH]; [done |].
  cbn [omap list_omap]. rewrite <- IH. clear IH.
  unfold proto_class, unloaded_proto in *.
  destruct (ROOT.GetClass env !! n) as [cl|]; [|done].
  destruct (TClass.GetListOfDataMembers cl) as [dms|]; [|done].
  destruct (check_data_members env n cl dms); [|done]. simpl in Hn.
  destruct (TClass.IsLoaded cl); by injection Hn as <-.
Qed.

(** C3, as stated, fails: the typedef ["MyInt_t"] cannot be resolved, and
    the writer still returns [true] and writes the four records. *)
Lemma CloseStreamerInfoROOTFile_unresolved_typedef :
  typedef_unresolved bare_env "MyInt_t" /\
  "MyInt_t" ∈ gTypedefsToStore one_typedef /\
  CloseStreamerInfoROOTFile bare_env one_typedef false =
    (true,
     TFile.mk "dict.pcm?filetype=pcm"
       [KeyObjArray "__ProtoClasses" []; KeyObjArray "__Typedefs" [];
        KeyObjArray "__Enums" []; KeyStrings "__AncestorPCMNames" []]).
Proof.
  split; [reflexivity |]. split; [apply list_elem_of_singleton; reflexivity |].
  reflexivity.
Qed.

(** C3, amended: without the write-empty flag the writer returns [false]
    exactly when a registered class cannot be resolved or lacks its
    metadata, a registered enum cannot be found, or the file is a zombie,
    and then it has written no key; otherwise it returns [true] and the
    file holds ["__ProtoClasses"], ["__Typedefs"], ["__Enums"] and
    ["__AncestorPCMNames"], in this order: a proto class for each
    registered class without a loaded dictionary, the registered
    typedefs that resolve to a type of kind [-1], one enum for each
    registered enum, and the ancestor list as accumulated.  Typedef names
    never make it fail: those that do not resolve are skipped. *)
Theorem CloseStreamerInfoROOTFile_contract (env : ROOT.t) (g : Globals) :
  let r := CloseStreamerInfoROOTFile env g false in
  (r.1 = false <->
     Exists (class_fails env) (gClassesToStore g) \/
     Exists (enum_fails env) (gEnumsToStore g) \/
     ROOT.IsZombie env = true) /\
  (r.1 = false -> TFile.GetListOfKeys r.2 = []) /\
  (r.1 = true ->
     exists enums,
       Forall2 (fun enumname en => enum_entry env enumname = Some en)
         (gEnumsToStore g) enums /\
       TFile.GetListOfKeys r.2 =
         [KeyObjArray "__ProtoClasses"
            (omap (unloaded_proto env) (gClassesToStore g));
          KeyObjArray "__Typedefs" (omap (typedef_entry env) (gTypedefsToStore g));
          KeyObjArray "__Enums" enums;
          KeyStrings "__AncestorPCMNames" (gAncestorPCMNames g)]).
Proof.
  unfold CloseStreamerInfoROOTFile; simpl.
  destruct (mapM (proto_class env) (gClassesToStore g)) as [stored|] eqn:Hc.
  - assert (~ Exists (class_fails env) (gClassesToStore g)) as Hnc.
    { intros HE. assert (mapM (proto_class env) (gClassesToStore g) = None);
        [|congruence].
      apply mapM_None. eapply Exists_impl; [exact HE |].
      intros n Hn. by apply proto_class_None. }
    destruct (mapM (enum_entry env) (gEnumsToStore g)) as [enums|] eqn:He.
    + assert (~ Exists (enum_fails env) (gEnumsToStore g)) as Hne.
      { intros HE. assert (mapM (enum_entry env) (gEnumsToStore g) = None);
          [|congruence].
        apply mapM_None. eapply Exists_impl; [exact HE |].
        intros n Hn. by apply enum_entry_None. }
      destruct (ROOT.IsZombie env) eqn:Hz; simpl.
      * split; [split; auto | split; [done | discriminate]].
      * split; [|split; [discriminate |]].
        -- split; [discriminate | intros [? | [? | ?]]; done].
        -- intros _. exists enums. split; [by apply mapM_Some_1 |].
           unfold TFile.Write. simpl. by rewrite (stored_protos _ _ _ Hc).
    + simpl. split; [|split; [done | discriminate]].
      split; [intros _ | done]. right; left.
      apply mapM_None in He. eapply Exists_impl; [exact He |].
      intros n Hn. by apply enum_entry_None.
  - simpl. split; [|split; [done | discriminate]].
    split; [intros _ | done]. left.
    apply mapM_None in Hc. eapply Exists_impl; [exact Hc |].
    intros n Hn. by apply proto_class_None.
Qed.

(** C8: with the write-empty flag set, the writer returns [true] and the
    file holds the single key ["EMPTY"], whatever the run time knows and
    whatever names were accumulated. *)
Theorem CloseStreamerInfoROOTFile_empty (env : ROOT.t)
    (filename : string) (classes typedefs enums ancestors : list string) :
  CloseStreamerInfoROOTFile env
    (mkGlobals filename classes typedefs enums ancestors) true =
  (true, TFile.mk (filename +:+ "?filetype=pcm") [KeyObject "EMPTY"]).
Proof.
  unfold CloseStreamerInfoROOTFile, TFile.Write. simpl. reflexivity.
Qed.

(** C9: [AddStreamerInfoToROOTFile] leaves every accumulator as it was
    when the name is null, empty, or starts with ['(']; for any other
    name it appends that name, once, to the class list, and leaves the
    other accumulators as they were. *)
Theorem AddStreamerInfoToROOTFile_filter (normName : option string) (g : Globals) :
  let g' := AddStreamerInfoToROOTFile normName g in
  ((normName = None \/ normName = Some "" \/
    exists rest, normName = Some (String "("%char rest)) /\ g' = g)
  \/
  (exists c0 rest, normName = Some (String c0 rest) /\ c0 <> "("%char /\
     gClassesToStore g' = gClassesToStore g ++ [String c0 rest] /\
     length (gClassesToStore g') = S (length (gClassesToStore g)) /\
     gPCMFilename g' = gPCMFilename g /\
     gTypedefsToStore g' = gTypedefsToStore g /\
     gEnumsToStore g' = gEnumsToStore g /\
     gAncestorPCMNames g' = gAncestorPCMNames g).
Proof.
  destruct normName as [[|c0 rest]|]; simpl.
  - left. split; [right; by left | done].
  - destruct (Ascii.eqb c0 "("%char) eqn:Heq; simpl.
    + apply Ascii.eqb_eq in Heq as ->. left. split; [|done].
      right; right. by exists rest.
    + right. exists c0, rest. apply Ascii.eqb_neq in Heq.
      repeat split; try done. rewrite length_app. simpl. lia.
  - left. split; [by left | done].
Qed.

End rootclingIO_facts.

(** * Properties of the queries *)

Module Query_facts.
Import TDictionary TClingMethodInfo.
Import Query_defs.

(** ** Fixed cursors *)

(** A cursor made from one declaration answers with that declaration,
    and [Init] with a null pointer makes a consistent iterating cursor
    that has none. *)
Lemma fixed_cursor_GetDecl (interp : Interpreter.t) (FD : FunctionDecl.t) :
  GetDecl (of_FunctionDecl interp (Some FD)) = Some (DFunction FD).
Proof. reflexivity. Qed.

Lemma Init_null_consistent (c : t) :
  consistent (Init None c) /\ GetDecl (Init None c) = None.
Proof.
  split; [|reflexivity].
  split; [reflexivity | intros _; split; [reflexivity | discriminate]].
Qed.

(** ** Shadows of base-class constructors (C4) *)

(** C4, as stated, fails: at the shadow of the implicit constructor of
    [Base], Sema has an inheriting constructor to offer, and the current
    declaration is null all the same. *)
Lemma implicit_base_ctor_shadow_is_null :
  let shadow := ctor_shadow (constructor "Base" true) in
  let c := in_using simple_interp (UsingDecl.mk AS_public [shadow]) [shadow] in
  FunctionDecl.isImplicit (constructor "Base" true) = true /\
  Interpreter.findInheritingConstructor simple_interp (constructor "Base" true) shadow
    = Some (constructor "Derived" false) /\
  GetDecl c = None.
Proof. repeat split. Qed.

(** C4, amended: at a constructor shadow whose target is a base-class
    constructor, the current declaration is null when that constructor is
    implicit, and otherwise what [Sema::findInheritingConstructor] gives
    for the shadow, never the base constructor itself. *)
Theorem ctor_shadow_resolution (c : t) (it : UsingIterator.t)
    (shadow : UsingShadowDecl.t) (rest : list UsingShadowDecl.t)
    (base_ctor : FunctionDecl.t) :
  fDecl c = None ->
  fTemplateSpec c = None ->
  fUsingIter c = Some it ->
  UsingIterator.fIter it = shadow :: rest ->
  UsingShadowDecl.isConstructorUsingShadow shadow = true ->
  UsingShadowDecl.getTargetDecl shadow = TargetFunction base_ctor ->
  isa_CXXConstructorDecl base_ctor = true ->
  GetDecl c =
    if FunctionDecl.isImplicit base_ctor then None
    else DFunction <$>
           Interpreter.findInheritingConstructor (UsingIterator.fInterp it)
             base_ctor shadow.
Proof.
  intros HD HT HU HI HS HTgt HC.
  unfold GetDecl, GetDeclSlow. rewrite HD, HT, HU.
  unfold UsingIterator.to_bool, UsingIterator.deref. rewrite HI. simpl.
  rewrite HS, HTgt. simpl. rewrite HC.
  by destruct (FunctionDecl.isImplicit base_ctor).
Qed.

Lemma ctor_shadow_resolution_witness :
  let shadow := ctor_shadow (constructor "Base" false) in
  GetDecl (in_using simple_interp (UsingDecl.mk AS_public [shadow]) [shadow]) =
    Some (DFunction (constructor "Derived" false)).
Proof.
  exact (ctor_shadow_resolution
           (in_using simple_interp
              (UsingDecl.mk AS_public [ctor_shadow (constructor "Base" false)])
              [ctor_shadow (constructor "Base" false)])
           (UsingIterator.mk simple_interp [ctor_shadow (constructor "Base" false)])
           (ctor_shadow (constructor "Base" false)) [] (constructor "Base" false)
           eq_refl eq_refl eq_refl eq_refl eq_refl eq_refl eq_refl).
Defined.

(** ** Argument counts (C10) *)

(** C10: on a valid cursor, [NDefaultArg()] is [NArg()] minus the
    minimum number of required arguments of the current function, and
    lies between [0] and [NArg()]. *)
Theorem NDefaultArg_NArg (c : t) (fd : FunctionDecl.t) :
  GetDecl c = Some (DFunction fd) ->
  counts_in_range fd ->
  IsValid c = true /\
  exists n d,
    NArg c = Some n /\ NDefaultArg c = Some d /\
    d = n - FunctionDecl.getMinRequiredArguments fd /\
    0 <= d <= n.
Proof.
  intros HG [Hmin Hmax].
  assert (IsValid c = true) as HV by (unfold IsValid; by rewrite HG).
  split; [exact HV |].
  unfold NArg, NDefaultArg, GetMethodDecl. rewrite HV, HG. simpl.
  eexists _, _. split; [reflexivity |]. split; [reflexivity |].
  unfold static_cast_int, to_unsigned, UINT_WIDTH in *.
  rewrite Z.mod_small by lia.
  repeat case_decide; lia.
Qed.

Lemma NDefaultArg_NArg_witness :
  IsValid (of_FunctionDecl simple_interp (Some (member_function "f" AS_public))) = true /\
  exists n d,
    NArg (of_FunctionDecl simple_interp (Some (member_function "f" AS_public))) = Some n /\
    NDefaultArg (of_FunctionDecl simple_interp (Some (member_function "f" AS_public))) = Some d /\
    d = n - 1 /\ 0 <= d <= n.
Proof.
  apply (NDefaultArg_NArg
           (of_FunctionDecl simple_interp (Some (member_function "f" AS_public)))
           (member_function "f" AS_public) eq_refl).
  unfold counts_in_range, UINT_WIDTH; simpl; lia.
Defined.

(** ** The access bits of [Property] (C7) *)

Section Access.
Context (K : TDictionary.t) (Hapart : access_bits_apart K).

Lemma land_lor_absorb (a b : Z) : Z.land a (Z.lor a b) = a.
Proof.
  apply Z.bits_inj'. intros n Hn. rewrite Z.land_spec, Z.lor_spec.
  by destruct (Z.testbit a n), (Z.testbit b n).
Qed.

Lemma reported_access_lor_other (p flag : Z) :
  flag ∈ other_bits K ->
  reported_access K (Z.lor p flag) = reported_access K p.
Proof.
  intros Hin. unfold reported_access.
  rewrite Z.land_lor_distr_l.
  rewrite (proj1 (Forall_forall _ _) Hapart flag Hin). apply Z.lor_0_r.
Qed.

Lemma reported_access_or_if (cond : bool) (p flag : Z) :
  flag ∈ other_bits K ->
  reported_access K (or_if cond flag p) = reported_access K p.
Proof.
  intros Hin. destruct cond; simpl; [by apply reported_access_lor_other | done].
Qed.

Lemma reported_access_strip (qt : QualType) (p : Z) :
  reported_access K (strip K qt p).1 = reported_access K p.
Proof.
  revert p. induction qt as [| |c qt IH|qt IH|c qt IH|c qt IH]; intros p; simpl;
    try done; rewrite IH; try done.
  - apply reported_access_lor_other. set_solver.
  - rewrite reported_access_or_if by set_solver.
    apply reported_access_lor_other. set_solver.
Qed.

Lemma reported_access_bit (p : Z) (access : AccessSpecifier) (ns : bool) :
  reported_access K p = 0 ->
  reported_access K
    match access with
    | AS_public => Z.lor p (kIsPublic K)
    | AS_protected => Z.lor p (kIsProtected K)
    | AS_private => Z.lor p (kIsPrivate K)
    | AS_none => or_if ns (kIsPublic K) p
    end = access_bit K access ns.
Proof.
  unfold reported_access, access_mask. intros Hp.
  destruct access; simpl; [| | |destruct ns; simpl; [|done]];
    rewrite Z.land_lor_distr_l, Hp, Z.lor_0_l.
  - apply land_lor_absorb.
  - rewrite (Z.lor_comm (kIsPublic K)), <- Z.lor_assoc. apply land_lor_absorb.
  - rewrite Z.lor_assoc, Z.lor_comm. apply land_lor_absorb.
  - apply land_lor_absorb.
Qed.

End Access.

(** C7: for a current declaration [fd] that is not deleted, the access
    level in the [Property] bitmask is the bit of the access specifier of
    [fAccessDecl], the using-declaration being iterated, when there is
    one, and of [fd] itself when there is none; the specifier
    [AS_none] is reported as public when the context of [fd] is a
    namespace (and as no access otherwise).  For a deleted [fd] the
    bitmask is empty. *)
Theorem Property_access (K : TDictionary.t) (c : t) (fd : FunctionDecl.t) :
  access_bits_apart K ->
  GetDecl c = Some (DFunction fd) ->
  exists property,
    Property K c = Some property /\
    (FunctionDecl.isDeleted fd = true -> property = 0) /\
    (FunctionDecl.isDeleted fd = false ->
       reported_access K property =
         access_bit K
           match fAccessDecl c with
           | Some accessdecl => getAccess accessdecl
           | None => FunctionDecl.getAccess fd
           end
           (FunctionDecl.inNamespace fd)).
Proof.
  intros Hapart HG.
  assert (IsValid c = true) as HV by (unfold IsValid; by rewrite HG).
  unfold Property, GetMethodDecl. rewrite HV, HG. simpl.
  eexists. split; [reflexivity |]. unfold Property_of.
  destruct (FunctionDecl.isDeleted fd); split; try done. intros _.
  destruct (strip K (FunctionDecl.getReturnType fd) _) as [p qt] eqn:Hstrip.
  assert (reported_access K p = access_bit K
            match fAccessDecl c with
            | Some accessdecl => getAccess accessdecl
            | None => FunctionDecl.getAccess fd
            end (FunctionDecl.inNamespace fd)) as Hp.
  { change p with (p, qt).1. rewrite <- Hstrip.
    rewrite reported_access_strip by done.
    rewrite reported_access_or_if by (done || set_solver).
    assert (forall q, reported_access K
              match FunctionDecl.getStorageClass fd with
              | SC_Static => Z.lor q (kIsStatic K)
              | _ => q
              end = reported_access K q) as ->.
    { intros q. destruct (FunctionDecl.getStorageClass fd); try done.
      apply reported_access_lor_other; [done | set_solver]. }
    replace (default (DFunction fd) (fAccessDecl c)) with
      (match fAccessDecl c with Some d => d | None => DFunction fd end)
      by by destruct (fAccessDecl c).
    replace (getAccess match fAccessDecl c with Some d => d | None => DFunction fd end)
      with (match fAccessDecl c with
            | Some accessdecl => getAccess accessdecl
            | None => FunctionDecl.getAccess fd
            end) by by destruct (fAccessDecl c).
    apply reported_access_bit.
    rewrite reported_access_or_if by (done || set_solver).
    rewrite reported_access_lor_other by (done || set_solver).
    unfold reported_access. apply Z.land_0_l. }
  assert (forall b f1 f2 q, f1 ∈ other_bits K -> f2 ∈ other_bits K ->
            reported_access K (or_if b (Z.lor f1 f2) q) = reported_access K q) as Hor2.
  { intros b f1 f2 q H1 H2. destruct b; simpl; [|done].
    rewrite Z.lor_assoc. rewrite !reported_access_lor_other; done. }
  repeat match goal with
         | |- context [if ?b then _ else _] => destruct b
         end;
    rewrite ?reported_access_or_if, ?Hor2, ?reported_access_or_if
      by (done || set_solver); done.
Qed.

Lemma root_bits_apart : access_bits_apart root_bits.
Proof. unfold access_bits_apart, other_bits. repeat constructor. Qed.

(** A protected method reached through a public using-declaration is
    reported public. *)
Lemma Property_access_witness :
  exists property,
    Property root_bits
      (in_using simple_interp
         (UsingDecl.mk AS_public
            [UsingShadowDecl.mk false (TargetFunction (member_function "h" AS_protected))])
         [UsingShadowDecl.mk false (TargetFunction (member_function "h" AS_protected))])
      = Some property /\
    (false = true -> property = 0) /\
    (false = false -> reported_access root_bits property = kIsPublic root_bits).
Proof.
  exact (Property_access root_bits
           (in_using simple_interp
              (UsingDecl.mk AS_public
                 [UsingShadowDecl.mk false
                    (TargetFunction (member_function "h" AS_protected))])
              [UsingShadowDecl.mk false
                 (TargetFunction (member_function "h" AS_protected))])
           (member_function "h" AS_protected) root_bits_apart eq_refl).
Defined.

(** ** Queries on a cursor without a current declaration (C5) *)

Lemma exhausted_GetDecl (c : t) : consistent c -> exhausted c -> GetDecl c = None.
Proof.
  intros [HD HC] [HI _]. destruct (HC HI) as [HT HU].
  unfold GetDecl, GetDeclSlow, cur_decl. rewrite HD, HT, HI.
  destruct (fUsingIter c) as [it|]; [|done]. by rewrite (HU it eq_refl).
Qed.

Lemma IsValid_false (c : t) : IsValid c = false <-> GetDecl c = None.
Proof.
  unfold IsValid. rewrite bool_decide_eq_false, <- eq_None_not_Some. done.
Qed.

(** C5: on a cursor that is invalid, or has no current declaration, or
    is an iterating cursor whose scope list is exhausted, each query
    returns its sentinel and none fails: [NArg] and [NDefaultArg] the
    count [-1], [Property] and [ExtraProperty] the empty bitmask,
    [GetMangledName] the empty string, and [Type] the null type. *)
Theorem queries_degrade (K : TDictionary.t) (c : t) (ti : TClingTypeInfo) :
  IsValid c = false \/ GetDecl c = None \/ (consistent c /\ exhausted c) ->
  NArg c = Some (-1) /\
  NDefaultArg c = Some (-1) /\
  Property K c = Some 0 /\
  ExtraProperty K c = Some 0 /\
  GetMangledName c = Some "" /\
  Type_ c ti = Some None.
Proof.
  intros H.
  assert (IsValid c = false) as HV.
  { destruct H as [H | [H | [H1 H2]]]; [done | by apply IsValid_false |].
    apply IsValid_false. by apply exhausted_GetDecl. }
  unfold NArg, NDefaultArg, Property, ExtraProperty, GetMangledName, Type_.
  by rewrite HV.
Qed.

Lemma queries_degrade_witness :
  NArg absent_scope_cursor = Some (-1) /\
  NDefaultArg absent_scope_cursor = Some (-1) /\
  Property root_bits absent_scope_cursor = Some 0 /\
  ExtraProperty root_bits absent_scope_cursor = Some 0 /\
  GetMangledName absent_scope_cursor = Some "" /\
  Type_ absent_scope_cursor (Some void_type) = Some None.
Proof.
  apply (queries_degrade root_bits absent_scope_cursor (Some void_type)).
  right; right. split.
  - split; [reflexivity | intros _; split; [reflexivity | discriminate]].
  - split; [reflexivity | intros _; unfold UINT_WIDTH; simpl; lia].
Defined.

End Query_facts.

(** * Properties of [InternalNext] *)

Module Cursor_facts.
Import TClingMethodInfo Query_defs Query_facts.
Import Cursor_defs.

(** ** The three blocks of the loop body *)

Lemma seek_resolves (interp : Interpreter.t) (rest : list UsingShadowDecl.t)
    (it : UsingIterator.t) :
  UsingIterator.seek interp rest = Some it ->
  is_Some (UsingIterator.deref it) /\ UsingIterator.to_bool it = true /\
  UsingIterator.fInterp it = interp /\
  exists skipped, rest = skipped ++ UsingIterator.fIter it /\ skipped <> [] /\
    forall k, (0 < k < length skipped)%nat ->
      UsingIterator.deref (UsingIterator.mk interp (drop k rest)) = None.
Proof.
  revert it. induction rest as [|s rest IH]; intros it; simpl; [discriminate |].
  destruct (UsingIterator.to_bool (UsingIterator.mk interp rest)) eqn:Hb;
    [|discriminate].
  destruct (UsingIterator.deref (UsingIterator.mk interp rest)) as [fd|] eqn:Hd.
  - intros [= <-]. rewrite Hd. repeat split; [by eexists | done |].
    exists [s]. repeat split; [done |]. simpl. intros k Hk. lia.
  - intros Hs. destruct (IH it Hs) as (H1 & H2 & H3 & skipped & -> & Hne & Hsk).
    repeat split; try done. exists (s :: skipped). repeat split; [done |].
    intros k Hk. simpl in Hk. destruct k as [|[|k]]; [lia | done |].
    simpl. apply (Hsk (S k)). lia.
Qed.

Lemma advance_post (c : t) :
  fTemplateSpec c = None ->
  match advance c with
  | Return r c1 =>
    r = 1 /\ fTemplateSpec c1 = None /\ fFirstTime c1 = false /\
    fFirstTime c = false /\ fDecl c1 = fDecl c /\ fIter c1 = fIter c /\
    fContexts c1 = fContexts c /\ fContextIdx c1 = fContextIdx c /\
    exists it, fUsingIter c1 = Some it /\ is_Some (UsingIterator.deref it)
  | Next_stmt c1 =>
    fTemplateSpec c1 = None /\ fFirstTime c1 = false /\ fDecl c1 = fDecl c /\
    fContexts c1 = fContexts c /\ fContextIdx c1 = fContextIdx c /\
    (fFirstTime c = true -> fIter c1 = fIter c /\ fUsingIter c1 = fUsingIter c) /\
    (fFirstTime c = false -> fIter c1 = tail (fIter c) /\ using_done c1)
  end.
Proof.
  intros HT. unfold advance, using_done.
  destruct (fFirstTime c) eqn:HF; simpl; [by repeat split |].
  destruct (fUsingIter c) as [it|] eqn:HU; simpl.
  - destruct (UsingIterator.to_bool it) eqn:Hb; simpl.
    + destruct (UsingIterator.seek _ _) as [it'|] eqn:Hs; simpl.
      * repeat split; try done. exists it'. split; [done |].
        by apply seek_resolves in Hs as [? _].
      * repeat split; try done.
    + repeat split; try done. intros it' Hit'. congruence.
  - repeat split; try done. intros it' Hit'. congruence.
Qed.

Lemma next_context_post (fuel : nat) (c : t) (fl : Flow) :
  next_context fuel c = Some fl ->
  (match fl with
   | Return r c2 => r = 0 /\ fIter c2 = [] /\ fIter c = []
   | Next_stmt c2 => fIter c2 <> []
   end) /\
  fTemplateSpec (state_of fl) = fTemplateSpec c /\
  fFirstTime (state_of fl) = fFirstTime c /\
  fDecl (state_of fl) = fDecl c /\
  fUsingIter (state_of fl) = fUsingIter c /\
  fContexts (state_of fl) = fContexts c.
Proof.
  revert c. induction fuel as [|fuel IH]; intros c; simpl.
  - destruct (fIter c) eqn:HI; [discriminate |]. intros [= <-]. simpl.
    by rewrite HI.
  - destruct (fIter c) eqn:HI.
    + destruct (fContexts c !! _) as [dc|] eqn:Hdc.
      * intros H. apply IH in H. simpl in H.
        destruct H as [H1 H2]. split; [|exact H2].
        destruct fl; [|exact H1]. by destruct H1 as (? & ? & _).
      * intros [= <-]. simpl. by repeat split.
    + intros [= <-]. simpl. by rewrite HI.
Qed.

Lemma classify_post (c : t) :
  fTemplateSpec c = None ->
  match classify c with
  | Return r c3 =>
    r = 1 /\ fIter c <> [] /\
    ((exists FD, cur_decl c = Some (DFunction FD) /\
        FunctionDecl.isDeleted FD = false /\ c3 = c) \/
     (exists udecl, cur_decl c = Some (DUsing udecl) /\
        c3 = set_fUsingIter (Some (UsingIterator.of_decl (fInterp c) udecl))
               (set_fAccessDecl (Some (DUsing udecl)) c)))
  | Next_stmt c3 =>
    fTemplateSpec c3 = None /\ fFirstTime c3 = fFirstTime c /\
    fDecl c3 = fDecl c /\ fIter c3 = fIter c /\ fUsingIter c3 = fUsingIter c /\
    fContextIdx c3 = fContextIdx c
  end.
Proof.
  intros HT. unfold classify, cur_decl.
  destruct (fIter c) as [|d rest] eqn:HI; simpl; [by repeat split |].
  destruct d as [FD|ftd|ud|inTU isInline decls|a]; simpl; rewrite ?HT.
  - destruct (FunctionDecl.isDeleted FD) eqn:Hdel; [by repeat split |].
    repeat split; [congruence |]. left. by exists FD.
  - by repeat split.
  - repeat split; [congruence |]. right. by exists ud.
  - destruct (inTU && isInline); by repeat split.
  - by repeat split.
Qed.

(** ** What a return of the loop leaves *)

Lemma loop_post (fuel : nat) (c : t) (r : Z) (c' : t) :
  loop fuel c = Some (r, c') ->
  (r = 0 \/ r = 1) /\ fTemplateSpec c' = None /\ fFirstTime c' = false /\
  fDecl c' = fDecl c /\
  (r = 0 -> fIter c' = []) /\
  ((fFirstTime c = false -> fIter c <> []) ->
   (fIter c = [] -> using_done c) ->
   (r = 1 -> fIter c' <> []) /\ (fIter c' = [] -> using_done c')).
Proof.
  revert c. induction fuel as [|fuel IH]; intros c; [discriminate |].
  cbn [loop].
  pose proof (advance_post (set_fTemplateSpec None c) eq_refl) as HA.
  destruct (advance (set_fTemplateSpec None c)) as [r1 c1|c1]; simpl in HA.
  - destruct HA as (-> & HT & HF & HF0 & HD & HI & _).
    intros [= <- <-]. split_and!; auto; try lia.
    intros Hpos _. rewrite HI. split; [auto |].
    intros Hnil. by destruct (Hpos HF0).
  - destruct HA as (HT & HF & HD & _ & _ & Hfirst & Hlater).
    destruct (next_context (S fuel) c1) as [fl|] eqn:HN; [|discriminate].
    apply next_context_post in HN as (Hfl & HT2 & HF2 & HD2 & HU2 & _).
    destruct fl as [r2 c2|c2]; simpl in *.
    + destruct Hfl as (-> & HI2 & HI1). intros [= <- <-].
      split_and!; auto; try congruence.
      intros Hpos Hdone. split; [lia |]. intros _.
      unfold using_done in *. rewrite HU2.
      destruct (fFirstTime c) eqn:HFc.
      * destruct (Hfirst eq_refl) as [HIc HUc]. rewrite HUc. apply Hdone.
        congruence.
      * by destruct (Hlater eq_refl).
    + pose proof (classify_post c2) as HC. rewrite HT2, HT in HC.
      specialize (HC eq_refl).
      destruct (classify c2) as [r3 c3|c3].
      * destruct HC as (-> & HI2 & Hc3). intros [= <- <-].
        assert (fTemplateSpec c3 = None /\ fFirstTime c3 = false /\
                fDecl c3 = fDecl c /\ fIter c3 = fIter c2) as (? & ? & ? & HI3).
        { destruct Hc3 as [(FD & _ & _ & ->) | (ud & _ & ->)]; simpl;
            split_and!; congruence. }
        split_and!; auto; try lia.
        intros _ _. split; intros; congruence.
      * destruct HC as (HT3 & HF3 & HD3 & HI3 & HU3 & _). intros HL.
        apply IH in HL as (Hr & HT' & HF' & HD' & H0 & Hcond).
        split_and!; auto; try congruence.
        intros _ _. apply Hcond; intros; congruence.
Qed.

(** [InternalNext] keeps an iterating cursor consistent; when it reports
    "not found" the scope list is exhausted, and when it reports "found"
    the outer iterator is at a declaration and no specialization is
    held. *)
Lemma InternalNext_post (fuel : nat) (c : t) (r : Z) (c' : t) :
  consistent c ->
  InternalNext fuel c = Some (r, c') ->
  consistent c' /\ (r = 0 \/ r = 1) /\
  (r = 0 -> exhausted c' /\ fFirstTime c' = false) /\
  (r = 1 -> fTemplateSpec c' = None /\ fIter c' <> []).
Proof.
  intros [HD HC]. unfold InternalNext.
  destruct (negb (fFirstTime (set_fNameCache "" c)) &&
            bool_decide (cur_decl (set_fNameCache "" c) = None)) eqn:Hearly.
  - apply andb_true_iff in Hearly as [HF Hcur].
    apply negb_true_iff in HF. apply bool_decide_eq_true in Hcur.
    unfold cur_decl in Hcur. simpl in HF, Hcur.
    destruct (fIter c) eqn:HI; [|done].
    intros [= <- <-]. destruct (HC eq_refl) as [HT HU].
    split_and!; auto; try lia.
    + split; [done |]. simpl. intros _. done.
    + intros _. split; [|done]. split; [done |]. simpl. congruence.
  - intros HL. apply loop_post in HL as (Hr & HT & HF & HD' & H0 & Hcond).
    simpl in *.
    destruct Hcond as [H1 Hdone].
    + intros HFc. rewrite HFc in Hearly. simpl in Hearly.
      apply bool_decide_eq_false in Hearly. unfold cur_decl in Hearly.
      simpl in Hearly. intros Hnil. by rewrite Hnil in Hearly.
    + intros Hnil. by destruct (HC Hnil).
    + split_and!; auto.
      * split; [congruence |]. intros Hnil. split; [done | by apply Hdone].
      * intros Hr0. split; [|done]. split; [auto | congruence].
Qed.

(** The constructors make consistent cursors. *)
Lemma of_ClassInfo_consistent (fuel : nat) (interp : Interpreter.t)
    (ci : option TClingClassInfo.t) (c : t) :
  of_ClassInfo fuel interp ci = Some c -> consistent c /\ iterating c.
Proof.
  unfold of_ClassInfo.
  assert (forall ctxs it, consistent (mk None "" interp ctxs true 0 it "" None None None))
    as Hinit by (intros; split; [done | intros _; split; [done | discriminate]]).
  destruct ci as [ci|]; [|intros [= <-]; split; [apply Hinit | done]].
  destruct (TClingClassInfo.IsValid ci); simpl;
    [|intros [= <-]; split; [apply Hinit | done]].
  destruct (InternalNext fuel _) as [[r c1]|] eqn:HN; [|discriminate].
  intros [= <-]. apply InternalNext_post in HN as ([HD HC] & _); [|apply Hinit].
  split; [split |]; simpl; auto.
Qed.

(** ** After exhaustion (C6) *)

Lemma Next_exhausted (fuel : nat) (c : t) :
  exhausted c -> (0 < fuel)%nat ->
  exists c', Next fuel c = Some (0, c') /\ exhausted c' /\
    fFirstTime c' = false /\ fDecl c' = fDecl c /\ fContexts c' = fContexts c.
Proof.
  intros [HI Hfirst] Hfuel. unfold Next, InternalNext, cur_decl. simpl.
  rewrite HI. simpl.
  destruct (fFirstTime c) eqn:HF; simpl.
  - destruct fuel as [|fuel]; [lia |]. cbn [loop]. unfold advance. simpl.
    rewrite HF. simpl. rewrite HI.
    destruct (Hfirst eq_refl) as [Hlen Hmax].
    assert (to_unsigned (fContextIdx c + 1) = fContextIdx c + 1) as ->
      by (apply Z.mod_small; lia).
    rewrite lookup_ge_None_2 by lia.
    eexists. split; [reflexivity |]. by split_and!.
  - eexists. split; [reflexivity |]. split_and!; try done.
    split; [done | simpl; congruence].
Qed.

(** C6: when the scope list of an iterating cursor is exhausted, each
    further call of [Next], however many there are, returns [0] ("not
    found"); the cursor stays iterating and exhausted, and its scope list
    is the one it had. *)
Theorem Next_after_exhaustion (fuel n : nat) (c : t) :
  iterating c -> exhausted c -> (0 < fuel)%nat ->
  exists c',
    Next_repeat fuel n c = Some (replicate n 0, c') /\
    iterating c' /\ exhausted c' /\ fContexts c' = fContexts c.
Proof.
  intros Hit Hex Hfuel. revert c Hit Hex.
  induction n as [|n IH]; intros c Hit Hex; simpl.
  - by exists c.
  - destruct (Next_exhausted fuel c Hex Hfuel) as (c1 & -> & Hex1 & _ & HD1 & HC1).
    destruct (IH c1) as (c2 & -> & Hit2 & Hex2 & HC2); [congruence | done |].
    exists c2. split_and!; [done | done | done | congruence].
Qed.

(** The cursor the constructor leaves on an empty namespace, and three
    further calls. *)
Lemma Next_after_exhaustion_witness :
  exists c',
    Next_repeat 1 3
      (mk None "" simple_interp [[]] true 1 [] "" None None None) =
      Some ([0; 0; 0], c') /\
    iterating c' /\ exhausted c' /\ fContexts c' = [[]].
Proof.
  apply (Next_after_exhaustion 1 3
           (mk None "" simple_interp [[]] true 1 [] "" None None None)).
  - reflexivity.
  - split; [reflexivity | intros _; unfold UINT_WIDTH; simpl; lia].
  - lia.
Defined.

(** Once a call on a consistent cursor has returned "not found", every
    later call does. *)
Lemma not_found_is_final (fuel fuel' n : nat) (c0 c : t) :
  consistent c0 -> InternalNext fuel c0 = Some (0, c) -> (0 < fuel')%nat ->
  exists c', Next_repeat fuel' n c = Some (replicate n 0, c').
Proof.
  intros Hc HN Hfuel.
  apply InternalNext_post in HN as (_ & _ & Hex & _); [|exact Hc].
  destruct (Hex eq_refl) as [Hex0 _]. clear Hex. revert c Hex0.
  induction n as [|n IH]; intros c Hex; simpl; [by eexists |].
  destruct (Next_exhausted fuel' c Hex Hfuel) as (c1 & -> & Hex1 & _).
  destruct (IH c1 Hex1) as (c2 & ->). by eexists.
Qed.

Lemma empty_namespace_cursor :
  of_ClassInfo 1 simple_interp (Some (TClingClassInfo.mk true [] [[]])) =
    Some (mk None "" simple_interp [[]] true 1 [] "" None None None).
Proof. reflexivity. Qed.

(** ** Termination *)

Lemma weight_namespace (inTU isInline : bool) (decls : list Decl) :
  weight (DNamespace inTU isInline decls) = (2 + weights decls)%nat.
Proof. reflexivity. Qed.

Lemma weight_pos (d : Decl) : (1 <= weight d)%nat.
Proof. destruct d; simpl; lia. Qed.

Lemma sum_drop_snoc {A} (f : A -> nat) (n : nat) (l : list A) (x : A) :
  (sum_list_with f (drop n (l ++ [x])) <= sum_list_with f (drop n l) + f x)%nat.
Proof.
  rewrite drop_app, sum_list_with_app.
  destruct (n - length l)%nat as [|k]; simpl; [lia |].
  rewrite drop_nil. simpl. lia.
Qed.

Lemma next_context_total (fuel : nat) (c : t) :
  0 <= fContextIdx c ->
  fContextIdx c + Z.of_nat (ahead c) + 1 < 2 ^ UINT_WIDTH ->
  (ahead c < fuel)%nat ->
  exists fl, next_context fuel c = Some fl /\
    match fl with
    | Return _ _ => True
    | Next_stmt c2 =>
      0 <= fContextIdx c2 /\ (ahead c2 <= ahead c)%nat /\
      fContextIdx c2 + Z.of_nat (ahead c2) <= fContextIdx c + Z.of_nat (ahead c)
    end.
Proof.
  revert c. induction fuel as [|fuel IH]; intros c Hidx Hmax Hfuel; [lia |].
  simpl. destruct (fIter c) as [|d rest] eqn:HI.
  - assert (to_unsigned (fContextIdx c + 1) = fContextIdx c + 1) as ->
      by (apply Z.mod_small; lia).
    replace (Z.to_nat (fContextIdx c + 1)) with (S (Z.to_nat (fContextIdx c))) by lia.
    destruct (fContexts c !! S (Z.to_nat (fContextIdx c))) as [dc|] eqn:Hdc.
    + assert (ahead c = S (ahead (set_fIter (decls_begin dc)
                                    (set_fContextIdx (fContextIdx c + 1) c)))) as Heq.
      { unfold ahead, pending. simpl. rewrite HI. simpl.
        replace (Z.to_nat (fContextIdx c + 1)) with (S (Z.to_nat (fContextIdx c))) by lia.
        rewrite (drop_S _ _ _ Hdc). simpl. unfold decls_begin. lia. }
      destruct (IH (set_fIter (decls_begin dc) (set_fContextIdx (fContextIdx c + 1) c)))
        as (fl & Hfl & Hpost); simpl; try lia.
      exists fl. split; [done |]. destruct fl; [done |]. simpl in Hpost. lia.
    + by eexists.
  - eexists. split; [done |]. simpl. lia.
Qed.

Lemma classify_work (c c3 : t) :
  classify c = Next_stmt c3 -> fIter c <> [] -> fFirstTime c = false ->
  (work c3 < ahead c)%nat /\ fContextIdx c3 = fContextIdx c.
Proof.
  unfold classify.
  destruct (fIter c) as [|d rest] eqn:HI; [done |]. intros Hc _ HF.
  assert (ahead c = weight d + weights rest + pending c)%nat as ->
    by (unfold ahead; rewrite HI; reflexivity).
  assert (forall c', fFirstTime c' = false -> fIter c' = d :: rest ->
            work c' = weights rest + pending c')%nat as Hwork
    by (intros c' H1 H2; unfold work; by rewrite H1, H2).
  pose proof (weight_pos d) as Hd.
  destruct d as [FD|ftd|ud|inTU isInline decls|a]; simpl in Hc.
  - destruct (FunctionDecl.isDeleted FD); [|discriminate].
    injection Hc as <-. rewrite Hwork by done. lia.
  - injection Hc as <-. rewrite Hwork by done. unfold pending. simpl. lia.
  - discriminate.
  - rewrite weight_namespace.
    destruct (inTU && isInline); injection Hc as <-; rewrite Hwork by done;
      [|lia].
    pose proof (sum_drop_snoc (fun dc => S (weights dc))
                  (S (Z.to_nat (fContextIdx c))) (fContexts c) decls) as Hs.
    cbv beta in Hs. split; [|done]. unfold pending.
    cbn [fContexts fContextIdx set_fContexts]. unfold DeclContext in *. lia.
  - injection Hc as <-. rewrite Hwork by done. lia.
Qed.

Lemma loop_total (fuel : nat) (c : t) :
  headroom c -> (work c < fuel)%nat -> exists r c', loop fuel c = Some (r, c').
Proof.
  revert c. induction fuel as [|fuel IH]; intros c [Hidx Hmax] Hfuel; [lia |].
  cbn [loop].
  pose proof (advance_post (set_fTemplateSpec None c) eq_refl) as HA.
  destruct (advance (set_fTemplateSpec None c)) as [r1 c1|c1]; [by eauto |].
  simpl in HA. destruct HA as (HT & HF & _ & HC1 & HX1 & Hfirst & Hlater).
  assert (ahead c1 <= work c)%nat as Hahead.
  { unfold ahead, work, pending. rewrite HC1, HX1.
    destruct (fFirstTime c).
    - destruct (Hfirst eq_refl) as [-> _]. lia.
    - destruct (Hlater eq_refl) as [-> _]. lia. }
  destruct (next_context_total (S fuel) c1) as (fl & Hfl & Hpost); try lia.
  rewrite Hfl. pose proof (next_context_post _ _ _ Hfl) as (Hfl' & HT2 & HF2 & _).
  destruct fl as [r2 c2|c2]; [by eauto |]. simpl in *.
  pose proof (classify_work c2) as HW.
  destruct (classify c2) as [r3 c3|c3]; [by eauto |].
  destruct (HW c3 eq_refl Hfl') as [Hw Hx]; [congruence |].
  apply IH; [split |]; lia.
Qed.

(** [InternalNext] returns: [work c] rounds, and one to spare, are enough
    fuel. *)
Lemma InternalNext_total (c : t) :
  headroom c -> exists r c', InternalNext (S (work c)) c = Some (r, c').
Proof.
  intros Hh. unfold InternalNext.
  destruct (negb _ && _); [by eauto |].
  apply loop_total; [exact Hh | simpl; unfold work, pending; simpl; lia].
Qed.

(** ** Function templates (C1) *)

(** C1, as stated, fails: over a namespace that declares only
    [g_template], which is instantiable with its defaults, the cursor
    finds nothing; it is exhausted and has no current declaration. *)
Lemma eligible_template_not_instantiated :
  instantiable_with_defaults lookup_interp g_template /\
  cur_decl (at_begin lookup_interp [DFunctionTemplate g_template]) =
    Some (DFunctionTemplate g_template) /\
  exists c',
    InternalNext 2 (at_begin lookup_interp [DFunctionTemplate g_template]) =
      Some (0, c') /\
    GetDecl c' = None.
Proof.
  split.
  - split; [by repeat constructor |]. split_and!; [done | done |].
    by exists (free_function "g").
  - split; [reflexivity |]. eexists. split; reflexivity.
Qed.

Lemma InternalNext_no_spec (fuel : nat) (c : t) (r : Z) (c' : t) :
  InternalNext fuel c = Some (r, c') ->
  (r = 0 \/ r = 1) /\ (r = 1 -> fTemplateSpec c' = None).
Proof.
  unfold InternalNext. destruct (negb _ && _).
  - intros [= <- <-]. split; [by left | lia].
  - intros HL. apply loop_post in HL as (Hr & HT & _). done.
Qed.

(** C1, amended: [InternalNext] never instantiates a function template.
    The classification passes over a template under the cursor, whatever
    its parameters and whatever the lookup would find; the call returns,
    with [0] or [1]; and when it returns [1] ("found") the cursor holds
    no specialization.  So no template, with or without defaults for its
    parameters, is reported as instantiated. *)
Theorem no_eager_instantiation (c : t) :
  iterating c -> headroom c ->
  (forall ftd, cur_decl c = Some (DFunctionTemplate ftd) ->
     classify c = Next_stmt (set_fTemplateSpec None c)) /\
  exists r c',
    Next (S (work c)) c = Some (r, c') /\
    (r = 0 \/ r = 1) /\
    (r = 1 -> fTemplateSpec c' = None).
Proof.
  intros _ Hh. split.
  - intros ftd Hcur. unfold classify, cur_decl in *.
    destruct (fIter c) as [|d rest]; [done |]. by injection Hcur as ->.
  - destruct (InternalNext_total c Hh) as (r & c' & HN).
    exists r, c'. split; [exact HN |]. by apply InternalNext_no_spec in HN.
Qed.

(** Over [g_template] followed by the function [f], the cursor passes
    the template and stops at [f]. *)
Lemma no_eager_instantiation_witness :
  (forall ftd,
     cur_decl (at_begin lookup_interp
                 [DFunctionTemplate g_template; DFunction (free_function "f")]) =
       Some (DFunctionTemplate ftd) ->
     classify (at_begin lookup_interp
                 [DFunctionTemplate g_template; DFunction (free_function "f")]) =
       Next_stmt
         (set_fTemplateSpec None
            (at_begin lookup_interp
               [DFunctionTemplate g_template; DFunction (free_function "f")]))) /\
  exists r c',
    Next 4 (at_begin lookup_interp
              [DFunctionTemplate g_template; DFunction (free_function "f")]) =
      Some (r, c') /\
    (r = 0 \/ r = 1) /\
    (r = 1 -> fTemplateSpec c' = None).
Proof.
  apply (no_eager_instantiation
           (at_begin lookup_interp
              [DFunctionTemplate g_template; DFunction (free_function "f")])).
  - reflexivity.
  - split; [done | vm_compute; reflexivity].
Defined.

Lemma template_then_function :
  exists c',
    Next 4 (at_begin lookup_interp
              [DFunctionTemplate g_template; DFunction (free_function "f")]) =
      Some (1, c') /\
    GetDecl c' = Some (DFunction (free_function "f")).
Proof. eexists. split; reflexivity. Qed.

(** ** Stepping a using-sub-iterator (C2) *)

(** With a sub-iterator that is not at its end, a later call either
    stops at the first later shadow that resolves to a function, or,
    when no later shadow does, discards the sub-iterator with the access
    declaration and steps the outer iterator.  With a sub-iterator that
    is already at its end, the call steps the outer iterator and keeps
    both. *)
Lemma advance_using (c : t) (it : UsingIterator.t) :
  fFirstTime c = false -> fUsingIter c = Some it ->
  advance c =
    if UsingIterator.to_bool it then
      match UsingIterator.seek (UsingIterator.fInterp it) (UsingIterator.fIter it) with
      | Some it' => Return 1 (set_fUsingIter (Some it') c)
      | None =>
        Next_stmt
          (set_fIter (tail (fIter c)) (set_fAccessDecl None (set_fUsingIter None c)))
      end
    else Next_stmt (set_fIter (tail (fIter c)) c).
Proof. intros HF HU. unfold advance. by rewrite HF, HU. Qed.

(** C2 fails on a using-declaration without shadows followed by the
    method [g]: the two calls of [Next] after construction both report
    "found" and leave the outer iterator at [g], yet the cursor still
    holds the sub-iterator and the access declaration of the
    using-declaration, and its current declaration is null. *)
Lemma empty_using_hides_next_declaration :
  let stale :=
    at_g empty_using (Some (UsingIterator.mk simple_interp []))
      (Some (DUsing empty_using)) in
  (of_ClassInfo 2 simple_interp (Some (class_with empty_using))
     ≫= Next_repeat 2 2) = Some ([1; 1], stale) /\
  cur_decl stale = Some (DFunction g_method) /\
  GetDecl stale = None /\
  IsValid stale = false.
Proof. split_and!; vm_compute; reflexivity. Qed.

(** The sibling path: when the sub-iterator runs out by stepping, it is
    discarded with the access declaration, and [g] is the current
    declaration. *)
Lemma stepped_using_is_discarded :
  (of_ClassInfo 2 simple_interp (Some (class_with field_using))
     ≫= Next_repeat 2 2) = Some ([1; 1], at_g field_using None None) /\
  GetDecl (at_g field_using None None) = Some (DFunction g_method).
Proof. split; vm_compute; reflexivity. Qed.

(** ** A walk over a class *)

(** The walk visits [f], [h] and the destructor: the template and the
    deleted method are passed over. *)
Lemma scenario_visits :
  (of_ClassInfo 6 lookup_interp (Some (TClingClassInfo.mk true scenario [scenario]))
     ≫= visits 6 10) =
  Some [Some (DFunction f_method); Some (DFunction h_method);
        Some (DFunction destructor)].
Proof. vm_compute. reflexivity. Qed.

End Cursor_facts.

(** * The records of the dictionary file *)

Module Registration_facts.
Import rootclingIO rootclingIO_defs Registration_defs.

Lemma find_last_of_app (ch : ascii) (s1 s2 : string) :
  std_string.find_last_of ch s2 = None ->
  std_string.find_last_of ch (s1 +:+ String ch s2) = Some (std_string.size s1).
Proof.
  intros H2. induction s1 as [|a s1 IH]; simpl.
  - rewrite H2. by rewrite Ascii.eqb_refl.
  - rewrite IH. f_equal. unfold std_string.size. simpl. lia.
Qed.

Lemma substring_prefix (s1 s2 : string) :
  String.substring 0 (String.length s1) (s1 +:+ s2) = s1.
Proof.
  induction s1 as [|a s1 IH]; simpl; [by destruct s2 | by rewrite IH].
Qed.

Lemma substring_all (s : string) : String.substring 0 (String.length s) s = s.
Proof. induction s as [|a s IH]; simpl; [done | by rewrite IH]. Qed.

Lemma substring_skip (s1 s2 : string) (m : nat) :
  String.substring (String.length s1) m (s1 +:+ s2) = String.substring 0 m s2.
Proof. induction s1 as [|a s1 IH]; simpl; [done | exact IH]. Qed.

Lemma append_assoc (s1 s2 s3 : string) :
  (s1 +:+ s2) +:+ s3 = s1 +:+ (s2 +:+ s3).
Proof.
  induction s1 as [|a s1 IH]; [done |].
  change (String a ((s1 +:+ s2) +:+ s3) = String a (s1 +:+ (s2 +:+ s3))).
  by rewrite IH.
Qed.

Lemma length_append (s1 s2 : string) :
  String.length (s1 +:+ s2) = (String.length s1 + String.length s2)%nat.
Proof. induction s1 as [|a s1 IH]; simpl; [done | by rewrite IH]. Qed.

Lemma find_last_of_qualified (ch : ascii) (s1 s2 : string) :
  std_string.find_last_of ch s2 = None ->
  std_string.find_last_of ch (s1 +:+ String ch (String ch s2)) =
    Some (std_string.size s1 + 1).
Proof.
  intros H2. induction s1 as [|a s1 IH]; simpl.
  - rewrite H2. by rewrite Ascii.eqb_refl.
  - rewrite IH. f_equal. unfold std_string.size. simpl. lia.
Qed.

(** A qualified enum name [ns::e], where [e] holds no colon, is looked
    up as [e] in the enum list of the class named [ns], and the enum
    found is given [ns] as its title. *)
Theorem enum_entry_qualified (env : ROOT.t) (ns e : string) :
  std_string.find_last_of ":"%char e = None ->
  std_string.size (ns +:+ "::" +:+ e) < 2 ^ std_string.SIZE_WIDTH ->
  enum_entry env (ns +:+ "::" +:+ e) =
    match ROOT.GetClass env !! ns with
    | Some cl =>
      match TClass.GetListOfEnums cl with
      | Some enums =>
        match FindObject TEnum.GetName enums e with
        | Some en => Some (Enum (TEnum.SetTitle ns en))
        | None => None
        end
      | None => None
      end
    | None => None
    end.
Proof.
  intros He Hsize. unfold enum_entry.
  change (ns +:+ "::" +:+ e) with (ns +:+ String ":"%char (String ":"%char e)) in *.
  rewrite (find_last_of_qualified _ ns e He).
  assert (std_string.size ns + 1 - 1 = std_string.size ns) as -> by lia.
  unfold std_string.size in Hsize. rewrite length_append in Hsize. simpl in Hsize.
  assert (std_string.substr (ns +:+ String ":"%char (String ":"%char e)) 0
            (std_string.to_size_t (std_string.size ns)) = ns) as ->.
  { unfold std_string.substr, std_string.to_size_t, std_string.size.
    rewrite Z.mod_small by lia. rewrite length_append. simpl.
    rewrite Z.min_l by lia. rewrite Nat2Z.id. apply substring_prefix. }
  assert (std_string.substr_from (ns +:+ String ":"%char (String ":"%char e))
            (std_string.size ns + 1 + 1) = e) as ->.
  { unfold std_string.substr_from, std_string.substr, std_string.size.
    rewrite length_append. simpl. rewrite Z.min_id.
    replace (Z.to_nat (Z.of_nat (String.length ns) + 1 + 1))
      with (String.length (ns +:+ "::")) by (rewrite length_append; simpl; lia).
    replace (ns +:+ String ":"%char (String ":"%char e)) with ((ns +:+ "::") +:+ e)
      by apply append_assoc.
    rewrite substring_skip.
    replace (Z.to_nat _) with (String.length e) by lia.
    apply substring_all. }
  done.
Qed.

Lemma enum_entry_qualified_witness :
  enum_entry (scope_env "NS") "NS::Color" = Some (Enum (TEnum.mk "Color" "NS")).
Proof.
  exact (enum_entry_qualified (scope_env "NS") "NS" "Color" eq_refl eq_refl).
Defined.

(** A name whose only colon is its first character: the position
    arithmetic [lastSepPos - 1] wraps around, and the class looked up is
    the one named by the whole name. *)
Theorem enum_entry_leading_colon (env : ROOT.t) (e : string) :
  std_string.find_last_of ":"%char e = None ->
  std_string.size (String ":"%char e) < 2 ^ std_string.SIZE_WIDTH ->
  enum_entry env (String ":"%char e) =
    match ROOT.GetClass env !! String ":"%char e with
    | Some cl =>
      match TClass.GetListOfEnums cl with
      | Some enums =>
        match FindObject TEnum.GetName enums e with
        | Some en => Some (Enum (TEnum.SetTitle (String ":"%char e) en))
        | None => None
        end
      | None => None
      end
    | None => None
    end.
Proof.
  intros He Hsize. unfold enum_entry. simpl std_string.find_last_of.
  rewrite He. simpl.
  unfold std_string.size in Hsize. simpl String.length in Hsize.
  assert (std_string.substr (String ":"%char e) 0 (std_string.to_size_t (0 - 1))
          = String ":"%char e) as ->.
  { unfold std_string.substr, std_string.to_size_t, std_string.size, std_string.SIZE_WIDTH in *.
    simpl String.length.
    replace ((0 - 1) mod 2 ^ 64) with (2 ^ 64 - 1) by reflexivity.
    rewrite Z.min_r by lia. rewrite Z.sub_0_r, Nat2Z.id.
    apply (substring_all (String ":"%char e)). }
  assert (std_string.substr_from (String ":"%char e) (0 + 1) = e) as ->.
  { unfold std_string.substr_from, std_string.substr, std_string.size.
    simpl String.length. rewrite Z.min_id.
    replace (Z.to_nat (0 + 1)) with 1%nat by reflexivity.
    replace (Z.to_nat _) with (String.length e) by lia.
    simpl. apply substring_all. }
  done.
Qed.

Lemma enum_entry_leading_colon_witness :
  enum_entry (scope_env ":Color") ":Color" = Some (Enum (TEnum.mk "Color" ":Color")).
Proof.
  exact (enum_entry_leading_colon (scope_env ":Color") "Color" eq_refl eq_refl).
Defined.

Lemma FindObject_Some {A} (GetName : A -> string) (l : list A) (name : string) (o : A) :
  FindObject GetName l name = Some o -> o ∈ l /\ GetName o = name.
Proof.
  unfold FindObject. intros H. apply List.find_some in H as [Hin Hb].
  split; [by apply list_elem_of_In | by apply bool_decide_eq_true in Hb].
Qed.

Lemma proto_class_entry env g normName o :
  normName ∈ gClassesToStore g ->
  proto_class env normName = Some (Some o) ->
  record_entry env g "__ProtoClasses" o.
Proof.
  intros Hin. unfold proto_class.
  destruct (ROOT.GetClass env !! normName) as [cl|] eqn:Hcl; [|done].
  destruct (TClass.GetListOfDataMembers cl); [|done].
  destruct (negb _); [done |].
  destruct (TClass.IsLoaded cl) eqn:Hl; [done |].
  intros [= <-]. simpl. split_and!; [done | done |]. by exists normName.
Qed.

Lemma typedef_entry_entry env g dtname o :
  dtname ∈ gTypedefsToStore g ->
  typedef_entry env dtname = Some o ->
  record_entry env g "__Typedefs" o.
Proof.
  intros Hin. unfold typedef_entry.
  destruct (FindObject _ _ _) as [dt|] eqn:Hf; [|done].
  apply FindObject_Some in Hf as [Hdt Hname].
  case_bool_decide as Ht; [|done]. intros [= <-]. simpl.
  split_and!; try done. by rewrite Hname.
Qed.

Lemma enum_entry_entry env g enumname o :
  enumname ∈ gEnumsToStore g ->
  enum_entry env enumname = Some o ->
  record_entry env g "__Enums" o.
Proof.
  intros Hin. unfold enum_entry.
  destruct (std_string.find_last_of ":"%char enumname) as [pos|] eqn:Hpos.
  - destruct (ROOT.GetClass env !! _) as [cl|]; [|done].
    destruct (TClass.GetListOfEnums cl) as [enums|]; [|done].
    destruct (FindObject _ _ _) as [en|] eqn:Hf; [|done].
    apply FindObject_Some in Hf as [_ Hname].
    intros [= <-]. simpl. split; [done |]. exists enumname. split; [done |].
    by rewrite Hpos.
  - destruct (FindObject _ _ _) as [en|] eqn:Hf; [|done].
    apply FindObject_Some in Hf as [_ Hname].
    intros [= <-]. simpl. split; [done |]. exists enumname. split; [done |].
    by rewrite Hpos.
Qed.

(** Whatever the writer leaves in the file is as [key_entry] says: with
    the write-empty flag only the marker, and without it arrays that hold
    nothing but proto classes of registered classes without a loaded
    dictionary, registered typedefs of kind [-1], and the enums of the
    registered names, besides the ancestor list. *)
Theorem CloseStreamerInfoROOTFile_keys (env : ROOT.t) (g : Globals)
    (writeEmptyRootPCM : bool) :
  Forall (key_entry env g writeEmptyRootPCM)
    (TFile.GetListOfKeys (CloseStreamerInfoROOTFile env g writeEmptyRootPCM).2).
Proof.
  unfold CloseStreamerInfoROOTFile.
  destruct writeEmptyRootPCM; simpl; [by repeat constructor |].
  destruct (mapM (proto_class env) (gClassesToStore g)) as [stored|] eqn:Hc;
    [|by constructor].
  destruct (mapM (enum_entry env) (gEnumsToStore g)) as [enums|] eqn:He;
    [|by constructor].
  destruct (ROOT.IsZombie env); [by constructor |]. simpl.
  apply mapM_Some_1 in Hc, He.
  repeat constructor.
  - apply Forall_forall. intros o Ho.
    apply list_elem_of_omap in Ho as (y & Hy & Hid). simpl in Hid. subst y.
    apply list_elem_of_lookup in Hy as [i Hi].
    destruct (Forall2_lookup_r _ _ _ _ _ Hc Hi) as (n & Hn & Hp).
    eapply proto_class_entry; [|exact Hp]. by eapply list_elem_of_lookup_2.
  - apply Forall_forall. intros o Ho.
    apply list_elem_of_omap in Ho as (n & Hn & Ht).
    by eapply typedef_entry_entry.
  - apply Forall_forall. intros o Ho.
    apply list_elem_of_lookup in Ho as [i Hi].
    destruct (Forall2_lookup_r _ _ _ _ _ He Hi) as (n & Hn & Hp).
    eapply enum_entry_entry; [|exact Hp]. by eapply list_elem_of_lookup_2.
Qed.

Lemma check_data_members_exempt env normName cl dms :
  TClass.GetClassVersion cl = 0 \/ Forall (exempt_member env) dms ->
  check_data_members env normName cl dms = true.
Proof.
  intros H. induction dms as [|dm dms IH]; simpl; [done |].
  assert (TClass.GetClassVersion cl = 0 \/ Forall (exempt_member env) dms) as H'.
  { destruct H as [H | H]; [by left | right; by inversion H]. }
  destruct (negb (TDataMember.IsPersistent dm) ||
            bool_decide (TClass.GetClassVersion cl = 0)) eqn:Hskip; [by apply IH |].
  apply orb_false_iff in Hskip as [Hp Hv].
  apply negb_false_iff in Hp. apply bool_decide_eq_false in Hv.
  destruct H as [H | H]; [done |]. inversion H as [|? ? [Hd | Hd] _]; subst.
  - congruence.
  - unfold IsUnsupportedUniquePointer. rewrite Hd. by apply IH.
Qed.

(** A class that resolves and has its list of data members is never
    refused when it is unversioned (class version [0]) or when each of
    its members is transient or no [unique_ptr]: the loop ends with its
    proto class, or with nothing to store for a loaded class. *)
Theorem proto_class_exempt (env : ROOT.t) (normName : string) (cl : TClass.t)
    (dms : list TDataMember.t) :
  ROOT.GetClass env !! normName = Some cl ->
  TClass.GetListOfDataMembers cl = Some dms ->
  TClass.GetClassVersion cl = 0 \/ Forall (exempt_member env) dms ->
  proto_class env normName =
    Some (if TClass.IsLoaded cl then None else Some (ProtoClass cl)).
Proof.
  intros Hcl Hdms Hex. unfold proto_class. rewrite Hcl, Hdms.
  rewrite (check_data_members_exempt _ _ _ _ Hex). simpl.
  by destruct (TClass.IsLoaded cl).
Qed.

Lemma proto_class_exempt_witness :
  proto_class holder_env "Holder" = Some (Some (ProtoClass holder)).
Proof.
  exact (proto_class_exempt holder_env "Holder" holder _ eq_refl eq_refl
           (or_introl eq_refl)).
Defined.

Lemma mapM_snoc_None {A B} (f : A -> option B) (l : list A) (x : A) :
  mapM f l = None -> mapM f (l ++ [x]) = None.
Proof.
  rewrite !mapM_None. intros H. apply Exists_app. by left.
Qed.

Lemma Close_fails_iff env g :
  (CloseStreamerInfoROOTFile env g false).1 = false <->
  mapM (proto_class env) (gClassesToStore g) = None \/
  mapM (enum_entry env) (gEnumsToStore g) = None \/
  ROOT.IsZombie env = true.
Proof.
  unfold CloseStreamerInfoROOTFile.
  destruct (mapM (proto_class env) _); [|simpl; tauto].
  destruct (mapM (enum_entry env) _); [|simpl; tauto].
  destruct (ROOT.IsZombie env); simpl; [tauto |].
  split; [done | intros [? | [? | ?]]; done].
Qed.

(** Registering one more typedef never changes the result of the
    writer, with or without the write-empty flag. *)
Theorem AddTypedefToROOTFile_result (env : ROOT.t) (g : Globals) (tdname : string)
    (writeEmptyRootPCM : bool) :
  (CloseStreamerInfoROOTFile env (AddTypedefToROOTFile tdname g) writeEmptyRootPCM).1 =
  (CloseStreamerInfoROOTFile env g writeEmptyRootPCM).1.
Proof.
  unfold CloseStreamerInfoROOTFile, AddTypedefToROOTFile. simpl.
  destruct writeEmptyRootPCM; [done |].
  destruct (mapM (proto_class env) _); [|done].
  destruct (mapM (enum_entry env) _); [|done].
  by destruct (ROOT.IsZombie env).
Qed.

(** A run of the writer that fails keeps failing, whatever is registered
    after: no later call of a registration function repairs it. *)
Theorem registration_keeps_failure (env : ROOT.t) (rs : list Registration)
    (g : Globals) :
  (CloseStreamerInfoROOTFile env g false).1 = false ->
  (CloseStreamerInfoROOTFile env (register_all rs g) false).1 = false.
Proof.
  revert g. induction rs as [|r rs IH]; intros g Hg; [done |].
  apply IH. clear IH. apply Close_fails_iff in Hg. apply Close_fails_iff.
  destruct r as [[[|c0 rest]|]|td|en|pcm]; simpl; try done.
  - destruct (negb (Ascii.eqb c0 "("%char)); [|done]. simpl.
    destruct Hg as [Hg | Hg]; [left; by apply mapM_snoc_None | by right].
  - destruct Hg as [Hg | [Hg | Hg]]; [by left | | by right; right].
    right; left. by apply mapM_snoc_None.
Qed.

Lemma registration_keeps_failure_witness :
  (CloseStreamerInfoROOTFile bare_env
     (register_all [RegisterTypedef "MyInt_t"; RegisterClass (Some "Holder")]
        (mkGlobals "dict.pcm" ["Missing"] [] [] [])) false).1 = false.
Proof.
  exact (registration_keeps_failure bare_env
           [RegisterTypedef "MyInt_t"; RegisterClass (Some "Holder")]
           (mkGlobals "dict.pcm" ["Missing"] [] [] []) eq_refl).
Defined.





End Registration_facts.

(** * The bits of [Property] and [ExtraProperty] *)

Module Property_facts.
Import TDictionary TClingMethodInfo Property_defs Query_defs.

Lemma testbit_or_if (cond : bool) (flag p : Z) (i : Z) :
  Z.testbit (or_if cond flag p) i = Z.testbit p i || cond && Z.testbit flag i.
Proof.
  destruct cond; simpl; [by rewrite Z.lor_spec | by rewrite orb_false_r].
Qed.

Lemma strip_stripped (K : TDictionary.t) (qt : QualType) (p : Z) :
  (strip K qt p).2 = stripped qt.
Proof. revert p. induction qt; intros p; simpl; auto. Qed.

Lemma testbit_strip (K : TDictionary.t) (qt : QualType) (p : Z) (i : Z) :
  Z.testbit (strip K qt p).1 i =
    Z.testbit p i
    || strips_reference qt && Z.testbit (kIsReference K) i
    || strips_pointer qt && Z.testbit (kIsPointer K) i
    || strips_const_pointer qt && Z.testbit (kIsConstPointer K) i.
Proof.
  revert p. induction qt as [| |c qt IH|qt IH|c qt IH|c qt IH]; intros p; simpl;
    rewrite ?IH, ?testbit_or_if, ?Z.lor_spec.
  - by rewrite !orb_false_r.
  - by rewrite !orb_false_r.
  - done.
  - btauto.
  - btauto.
  - done.
Qed.

(** The bits of the mask [Property] builds for a declaration that is
    not deleted. *)
Lemma testbit_Property_of (K : TDictionary.t) (a : option Decl)
    (fd : FunctionDecl.t) (i : Z) :
  FunctionDecl.isDeleted fd = false ->
  Z.testbit (Property_of K a fd) i =
    Z.testbit (kIsCompiled K) i
    || FunctionDecl.isConstexpr fd && Z.testbit (kIsConstexpr K) i
    || Z.testbit (access_bit K (getAccess (default (DFunction fd) a))
                    (FunctionDecl.inNamespace fd)) i
    || isStatic fd
       && Z.testbit (kIsStatic K) i
    || (isConstQualified (FunctionDecl.getReturnType fd)
        || isConstQualified (stripped (FunctionDecl.getReturnType fd))
        || isa_CXXMethodDecl fd && FunctionDecl.hasConst fd)
       && Z.testbit (kIsConstant K) i
    || strips_reference (FunctionDecl.getReturnType fd) && Z.testbit (kIsReference K) i
    || strips_pointer (FunctionDecl.getReturnType fd) && Z.testbit (kIsPointer K) i
    || strips_const_pointer (FunctionDecl.getReturnType fd)
       && Z.testbit (kIsConstPointer K) i
    || isa_CXXMethodDecl fd && FunctionDecl.hasConst fd && Z.testbit (kIsConstMethod K) i
    || isa_CXXMethodDecl fd && FunctionDecl.isVirtual fd && Z.testbit (kIsVirtual K) i
    || isa_CXXMethodDecl fd && FunctionDecl.isPure fd && Z.testbit (kIsPureVirtual K) i
    || (isa_CXXConstructorDecl fd || isa_CXXConversionDecl fd)
       && FunctionDecl.isExplicit fd && Z.testbit (kIsExplicit K) i.
Proof.
  intros Hdel. unfold Property_of. rewrite Hdel.
  destruct (strip K (FunctionDecl.getReturnType fd) _) as [p qt] eqn:Hstrip.
  assert (Z.testbit p i =
            Z.testbit (kIsCompiled K) i
            || FunctionDecl.isConstexpr fd && Z.testbit (kIsConstexpr K) i
            || Z.testbit (access_bit K (getAccess (default (DFunction fd) a))
                            (FunctionDecl.inNamespace fd)) i
            || isStatic fd
               && Z.testbit (kIsStatic K) i
            || isConstQualified (FunctionDecl.getReturnType fd)
               && Z.testbit (kIsConstant K) i
            || strips_reference (FunctionDecl.getReturnType fd)
               && Z.testbit (kIsReference K) i
            || strips_pointer (FunctionDecl.getReturnType fd)
               && Z.testbit (kIsPointer K) i
            || strips_const_pointer (FunctionDecl.getReturnType fd)
               && Z.testbit (kIsConstPointer K) i) as Hp.
  { change p with (p, qt).1. rewrite <- Hstrip. rewrite testbit_strip.
    rewrite testbit_or_if. do 4 f_equal.
    assert (forall q, Z.testbit
              match FunctionDecl.getStorageClass fd with
              | SC_Static => Z.lor q (kIsStatic K)
              | _ => q
              end i = Z.testbit q i
                      || isStatic fd
                         && Z.testbit (kIsStatic K) i) as ->.
    { intros q. unfold isStatic. destruct (FunctionDecl.getStorageClass fd); simpl;
        rewrite ?Z.lor_spec, ?orb_false_r; done. }
    f_equal.
    destruct (getAccess (default (DFunction fd) a)); simpl;
      rewrite ?testbit_or_if, ?Z.lor_spec, ?testbit_or_if, ?Z.lor_spec, ?Z.bits_0; simpl.
    - done.
    - done.
    - done.
    - destruct (FunctionDecl.inNamespace fd); simpl; by rewrite ?Z.bits_0, ?orb_false_r. }
  assert (qt = stripped (FunctionDecl.getReturnType fd)) as ->.
  { change qt with (p, qt).2. rewrite <- Hstrip. apply strip_stripped. }
  clear Hstrip.
  unfold isa_CXXMethodDecl, isa_CXXConstructorDecl, isa_CXXConversionDecl.
  destruct (FunctionDecl.getKind fd); simpl;
    rewrite ?testbit_or_if, ?Z.lor_spec, Hp; btauto.
Qed.


Lemma testbit_flag_if (cond : bool) (flag : Z) (i : Z) :
  Z.testbit (flag_if cond flag) i = cond && Z.testbit flag i.
Proof. destruct cond; simpl; [done | apply Z.bits_0]. Qed.

Lemma land_flag (p flag : Z) (cond : bool) :
  (forall i, Z.testbit flag i = true -> Z.testbit p i = cond) ->
  Z.land p flag = flag_if cond flag.
Proof.
  intros H. apply Z.bits_inj'. intros i _.
  rewrite Z.land_spec, testbit_flag_if.
  destruct (Z.testbit flag i) eqn:Hf; [by rewrite H, andb_true_r |].
  by rewrite !andb_false_r.
Qed.

Lemma disjoint_testbit (f g : Z) (i : Z) :
  disjoint f g = true -> Z.testbit f i && Z.testbit g i = false.
Proof.
  unfold disjoint. intros H. apply Z.eqb_eq in H.
  rewrite <- Z.land_spec, H. apply Z.bits_0.
Qed.

Lemma apart_others (flags : list Z) (m : nat) (f : Z) (i : Z) :
  apart flags = true -> flags !! m = Some f -> Z.testbit f i = true ->
  forall (n : nat) (g : Z), n <> m -> flags !! n = Some g -> Z.testbit g i = false.
Proof.
  intros Ha Hm Hf n g Hnm Hn. revert m n Hm Hn Hnm.
  induction flags as [|h flags IH]; intros m n Hm Hn Hnm; [done |].
  simpl in Ha. apply andb_true_iff in Ha as [Hh Ha].
  rewrite forallb_forall in Hh.
  destruct m as [|m], n as [|n]; simpl in *; simplify_eq.
  - apply list_elem_of_lookup_2, list_elem_of_In, Hh in Hn.
    apply (disjoint_testbit _ _ i) in Hn. rewrite Hf in Hn. done.
  - apply list_elem_of_lookup_2, list_elem_of_In, Hh in Hm.
    apply (disjoint_testbit _ _ i) in Hm. rewrite Hf, andb_true_r in Hm. done.
  - eapply (IH Ha m n); eauto.
Qed.

Ltac other_flag Ho n :=
  try (let H := fresh in
       pose proof (Ho n _ ltac:(lia) eq_refl) as H; rewrite ?H; clear H).

Ltac other_flags Ho :=
  other_flag Ho constr:(0%nat);
  other_flag Ho constr:(1%nat);
  other_flag Ho constr:(2%nat);
  other_flag Ho constr:(3%nat);
  other_flag Ho constr:(4%nat);
  other_flag Ho constr:(5%nat);
  other_flag Ho constr:(6%nat);
  other_flag Ho constr:(7%nat);
  other_flag Ho constr:(8%nat);
  other_flag Ho constr:(9%nat);
  other_flag Ho constr:(10%nat);
  other_flag Ho constr:(11%nat);
  other_flag Ho constr:(12%nat);
  other_flag Ho constr:(13%nat).

(** The part of the mask under the flag at position [m] of
    [Property_flags], once the bits of that flag are known. *)
Ltac mask_of K Hapart Hdel m :=
  apply land_flag; intros i Hf;
  rewrite testbit_Property_of by exact Hdel;
  pose proof (apart_others (Property_flags K) m _ i Hapart eq_refl Hf) as Ho;
  unfold access_bit;
  repeat match goal with
         | |- context [match ?a with AS_public => _ | _ => _ end] => destruct a
         | |- context [Z.testbit (if ?b then _ else _) _] => destruct b
         end;
  rewrite ?Z.bits_0; other_flags Ho;
  rewrite ?Hf, ?andb_false_r, ?andb_true_r, ?orb_false_r; simpl; try done; btauto.

Section Decode.
Context (K : TDictionary.t) (Hapart : apart (Property_flags K) = true).
Context (a : option Decl) (fd : FunctionDecl.t).
Context (Hdel : FunctionDecl.isDeleted fd = false).

Lemma Property_of_compiled :
  Z.land (Property_of K a fd) (kIsCompiled K) = kIsCompiled K.
Proof. change (kIsCompiled K) with (flag_if true (kIsCompiled K)) at 2. mask_of K Hapart Hdel 0%nat. Qed.

Lemma Property_of_constexpr :
  Z.land (Property_of K a fd) (kIsConstexpr K) =
    flag_if (FunctionDecl.isConstexpr fd) (kIsConstexpr K).
Proof. mask_of K Hapart Hdel 1%nat. Qed.

Lemma Property_of_static :
  Z.land (Property_of K a fd) (kIsStatic K) = flag_if (isStatic fd) (kIsStatic K).
Proof. mask_of K Hapart Hdel 5%nat. Qed.

Lemma Property_of_constant :
  Z.land (Property_of K a fd) (kIsConstant K) =
    flag_if (isConstQualified (FunctionDecl.getReturnType fd)
             || isConstQualified (stripped (FunctionDecl.getReturnType fd))
             || isa_CXXMethodDecl fd && FunctionDecl.hasConst fd) (kIsConstant K).
Proof. mask_of K Hapart Hdel 6%nat. Qed.

Lemma Property_of_reference :
  Z.land (Property_of K a fd) (kIsReference K) =
    flag_if (strips_reference (FunctionDecl.getReturnType fd)) (kIsReference K).
Proof. mask_of K Hapart Hdel 7%nat. Qed.

Lemma Property_of_pointer :
  Z.land (Property_of K a fd) (kIsPointer K) =
    flag_if (strips_pointer (FunctionDecl.getReturnType fd)) (kIsPointer K).
Proof. mask_of K Hapart Hdel 8%nat. Qed.

Lemma Property_of_const_pointer :
  Z.land (Property_of K a fd) (kIsConstPointer K) =
    flag_if (strips_const_pointer (FunctionDecl.getReturnType fd)) (kIsConstPointer K).
Proof. mask_of K Hapart Hdel 9%nat. Qed.

Lemma Property_of_const_method :
  Z.land (Property_of K a fd) (kIsConstMethod K) =
    flag_if (isa_CXXMethodDecl fd && FunctionDecl.hasConst fd) (kIsConstMethod K).
Proof. mask_of K Hapart Hdel 10%nat. Qed.

Lemma Property_of_virtual :
  Z.land (Property_of K a fd) (kIsVirtual K) =
    flag_if (isa_CXXMethodDecl fd && FunctionDecl.isVirtual fd) (kIsVirtual K).
Proof. mask_of K Hapart Hdel 11%nat. Qed.

Lemma Property_of_pure_virtual :
  Z.land (Property_of K a fd) (kIsPureVirtual K) =
    flag_if (isa_CXXMethodDecl fd && FunctionDecl.isPure fd) (kIsPureVirtual K).
Proof. mask_of K Hapart Hdel 12%nat. Qed.

Lemma Property_of_explicit :
  Z.land (Property_of K a fd) (kIsExplicit K) =
    flag_if ((isa_CXXConstructorDecl fd || isa_CXXConversionDecl fd)
             && FunctionDecl.isExplicit fd) (kIsExplicit K).
Proof. mask_of K Hapart Hdel 13%nat. Qed.

End Decode.


Lemma Property_found (K : TDictionary.t) (c : t) (fd : FunctionDecl.t) :
  GetDecl c = Some (DFunction fd) ->
  Property K c = Some (Property_of K (fAccessDecl c) fd).
Proof.
  intros HG.
  assert (IsValid c = true) as HV by (unfold IsValid; by rewrite HG).
  unfold Property, GetMethodDecl. by rewrite HV, HG.
Qed.

(** For a current declaration that is not deleted, and flags that share
    no bit: the mask of [Property] always holds [kIsCompiled]; it holds
    [kIsConstexpr] exactly for a [constexpr] function and [kIsStatic]
    exactly for storage class [static]. *)
Theorem Property_function_bits (K : TDictionary.t) (c : t) (fd : FunctionDecl.t) :
  apart (Property_flags K) = true ->
  GetDecl c = Some (DFunction fd) ->
  FunctionDecl.isDeleted fd = false ->
  exists property,
    Property K c = Some property /\
    Z.land property (kIsCompiled K) = kIsCompiled K /\
    Z.land property (kIsConstexpr K) =
      flag_if (FunctionDecl.isConstexpr fd) (kIsConstexpr K) /\
    Z.land property (kIsStatic K) = flag_if (isStatic fd) (kIsStatic K).
Proof.
  intros Hapart HG Hdel. eexists. split; [by apply Property_found |].
  split_and!.
  - by apply Property_of_compiled.
  - by apply Property_of_constexpr.
  - by apply Property_of_static.
Qed.

Lemma Property_function_bits_witness :
  exists property,
    Property root_bits (of_FunctionDecl simple_interp (Some static_function)) =
      Some property /\
    Z.land property (kIsCompiled root_bits) = kIsCompiled root_bits /\
    Z.land property (kIsConstexpr root_bits) = 0 /\
    Z.land property (kIsStatic root_bits) = kIsStatic root_bits.
Proof.
  exact (Property_function_bits root_bits
           (of_FunctionDecl simple_interp (Some static_function)) static_function
           eq_refl eq_refl eq_refl).
Defined.

(** The bits of a member function: [kIsConstMethod], [kIsVirtual] and
    [kIsPureVirtual] are reported for methods only, and [kIsExplicit]
    for constructors and conversion functions only. *)
Theorem Property_method_bits (K : TDictionary.t) (c : t) (fd : FunctionDecl.t) :
  apart (Property_flags K) = true ->
  GetDecl c = Some (DFunction fd) ->
  FunctionDecl.isDeleted fd = false ->
  exists property,
    Property K c = Some property /\
    Z.land property (kIsConstMethod K) =
      flag_if (isa_CXXMethodDecl fd && FunctionDecl.hasConst fd) (kIsConstMethod K) /\
    Z.land property (kIsVirtual K) =
      flag_if (isa_CXXMethodDecl fd && FunctionDecl.isVirtual fd) (kIsVirtual K) /\
    Z.land property (kIsPureVirtual K) =
      flag_if (isa_CXXMethodDecl fd && FunctionDecl.isPure fd) (kIsPureVirtual K) /\
    Z.land property (kIsExplicit K) =
      flag_if ((isa_CXXConstructorDecl fd || isa_CXXConversionDecl fd)
               && FunctionDecl.isExplicit fd) (kIsExplicit K).
Proof.
  intros Hapart HG Hdel. eexists. split; [by apply Property_found |].
  split_and!.
  - by apply Property_of_const_method.
  - by apply Property_of_virtual.
  - by apply Property_of_pure_virtual.
  - by apply Property_of_explicit.
Qed.

Lemma Property_method_bits_witness :
  exists property,
    Property root_bits (of_FunctionDecl simple_interp (Some const_method)) =
      Some property /\
    Z.land property (kIsConstMethod root_bits) = kIsConstMethod root_bits /\
    Z.land property (kIsVirtual root_bits) = kIsVirtual root_bits /\
    Z.land property (kIsPureVirtual root_bits) = 0 /\
    Z.land property (kIsExplicit root_bits) = 0.
Proof.
  exact (Property_method_bits root_bits
           (of_FunctionDecl simple_interp (Some const_method)) const_method
           eq_refl eq_refl eq_refl).
Defined.

(** The bits of the return type: [kIsReference], [kIsPointer] and
    [kIsConstPointer] tell what the loop met on its way through arrays,
    references, pointers and member pointers; [kIsConstant] is reported
    when the return type or the type the loop stops at is [const], and
    also for every [const] method, whatever it returns. *)
Theorem Property_return_type_bits (K : TDictionary.t) (c : t) (fd : FunctionDecl.t) :
  apart (Property_flags K) = true ->
  GetDecl c = Some (DFunction fd) ->
  FunctionDecl.isDeleted fd = false ->
  exists property,
    Property K c = Some property /\
    Z.land property (kIsReference K) =
      flag_if (strips_reference (FunctionDecl.getReturnType fd)) (kIsReference K) /\
    Z.land property (kIsPointer K) =
      flag_if (strips_pointer (FunctionDecl.getReturnType fd)) (kIsPointer K) /\
    Z.land property (kIsConstPointer K) =
      flag_if (strips_const_pointer (FunctionDecl.getReturnType fd))
        (kIsConstPointer K) /\
    Z.land property (kIsConstant K) =
      flag_if (isConstQualified (FunctionDecl.getReturnType fd)
               || isConstQualified (stripped (FunctionDecl.getReturnType fd))
               || isa_CXXMethodDecl fd && FunctionDecl.hasConst fd) (kIsConstant K).
Proof.
  intros Hapart HG Hdel. eexists. split; [by apply Property_found |].
  split_and!.
  - by apply Property_of_reference.
  - by apply Property_of_pointer.
  - by apply Property_of_const_pointer.
  - by apply Property_of_constant.
Qed.

Lemma Property_return_type_bits_witness :
  exists property,
    Property root_bits (of_FunctionDecl simple_interp (Some const_method)) =
      Some property /\
    Z.land property (kIsReference root_bits) = kIsReference root_bits /\
    Z.land property (kIsPointer root_bits) = kIsPointer root_bits /\
    Z.land property (kIsConstPointer root_bits) = kIsConstPointer root_bits /\
    Z.land property (kIsConstant root_bits) = kIsConstant root_bits.
Proof.
  exact (Property_return_type_bits root_bits
           (of_FunctionDecl simple_interp (Some const_method)) const_method
           eq_refl eq_refl eq_refl).
Defined.

(** [Property] sets no bit outside its flags. *)
Theorem Property_only_flags (K : TDictionary.t) (c : t) (property : Z) (i : Z) :
  Property K c = Some property ->
  Z.testbit property i = true ->
  Exists (fun flag => Z.testbit flag i = true) (Property_flags K).
Proof.
  unfold Property. destruct (negb (IsValid c)).
  { intros [= <-]. by rewrite Z.bits_0. }
  destruct (GetMethodDecl c) as [[fd|]|]; try done. intros [= <-].
  destruct (FunctionDecl.isDeleted fd) eqn:Hdel.
  { unfold Property_of. rewrite Hdel. by rewrite Z.bits_0. }
  rewrite testbit_Property_of by done. unfold access_bit, Property_flags.
  rewrite !Exists_cons.
  destruct (Z.testbit (kIsCompiled K) i); [tauto |].
  destruct (Z.testbit (kIsConstexpr K) i); [tauto |].
  destruct (Z.testbit (kIsPublic K) i) eqn:Hpub; [tauto |].
  destruct (Z.testbit (kIsProtected K) i) eqn:Hpro; [tauto |].
  destruct (Z.testbit (kIsPrivate K) i) eqn:Hpri; [tauto |].
  destruct (Z.testbit (kIsStatic K) i); [tauto |].
  destruct (Z.testbit (kIsConstant K) i); [tauto |].
  destruct (Z.testbit (kIsReference K) i); [tauto |].
  destruct (Z.testbit (kIsPointer K) i); [tauto |].
  destruct (Z.testbit (kIsConstPointer K) i); [tauto |].
  destruct (Z.testbit (kIsConstMethod K) i); [tauto |].
  destruct (Z.testbit (kIsVirtual K) i); [tauto |].
  destruct (Z.testbit (kIsPureVirtual K) i); [tauto |].
  destruct (Z.testbit (kIsExplicit K) i); [tauto |].
  intros H. exfalso. revert H.
  assert (Z.testbit
            match getAccess (default (DFunction fd) (fAccessDecl c)) with
            | AS_public => kIsPublic K
            | AS_protected => kIsProtected K
            | AS_private => kIsPrivate K
            | AS_none => if FunctionDecl.inNamespace fd then kIsPublic K else 0
            end i = false) as ->.
  { destruct (getAccess _); try done.
    destruct (FunctionDecl.inNamespace fd); [done | apply Z.bits_0]. }
  rewrite ?andb_false_r. done.
Qed.


Lemma Property_only_flags_witness :
  Exists (fun flag => Z.testbit flag 14 = true) (Property_flags root_bits).
Proof.
  exact (Property_only_flags root_bits
           (of_FunctionDecl simple_interp (Some static_function)) 0xc5200 14
           eq_refl eq_refl).
Defined.

Lemma testbit_ExtraProperty (K : TDictionary.t) (c : t) (fd : FunctionDecl.t) :
  GetDecl c = Some (DFunction fd) ->
  FunctionDecl.isDeleted fd = false ->
  exists property,
    ExtraProperty K c = Some property /\
    forall i,
      Z.testbit property i =
        FunctionDecl.isOverloadedOperator fd && Z.testbit (kIsOperator K) i
        || isa_CXXConversionDecl fd && Z.testbit (kIsConversion K) i
        || isa_CXXConstructorDecl fd && Z.testbit (kIsConstructor K) i
        || isa_CXXDestructorDecl fd && Z.testbit (kIsDestructor K) i
        || FunctionDecl.isInlined fd && Z.testbit (kIsInlined K) i
        || isTemplated fd && Z.testbit (kIsTemplateSpec K) i.
Proof.
  intros HG Hdel.
  assert (IsValid c = true) as HV by (unfold IsValid; by rewrite HG).
  unfold ExtraProperty, GetMethodDecl. rewrite HV, HG. simpl. rewrite Hdel.
  eexists. split; [reflexivity |]. intros i. unfold isTemplated.
  destruct (FunctionDecl.getTemplatedKind fd); simpl;
    rewrite ?Z.lor_spec, !testbit_or_if, Z.bits_0; btauto.
Qed.

Ltac extra_mask_of K Hapart Hbits m :=
  apply land_flag; intros i Hf; rewrite Hbits;
  pose proof (apart_others (ExtraProperty_flags K) m _ i Hapart eq_refl Hf) as Ho;
  other_flags Ho;
  rewrite ?Hf, ?andb_false_r, ?andb_true_r, ?orb_false_r; simpl; try done; btauto.

(** For a current declaration that is not deleted, and flags that share
    no bit, each flag of [ExtraProperty] tells one fact: an overloaded
    operator, a conversion function, a constructor, a destructor, an
    inlined function, and a function that is a template or comes from
    one. *)
Theorem ExtraProperty_bits (K : TDictionary.t) (c : t) (fd : FunctionDecl.t) :
  apart (ExtraProperty_flags K) = true ->
  GetDecl c = Some (DFunction fd) ->
  FunctionDecl.isDeleted fd = false ->
  exists property,
    ExtraProperty K c = Some property /\
    Z.land property (kIsOperator K) =
      flag_if (FunctionDecl.isOverloadedOperator fd) (kIsOperator K) /\
    Z.land property (kIsConversion K) =
      flag_if (isa_CXXConversionDecl fd) (kIsConversion K) /\
    Z.land property (kIsConstructor K) =
      flag_if (isa_CXXConstructorDecl fd) (kIsConstructor K) /\
    Z.land property (kIsDestructor K) =
      flag_if (isa_CXXDestructorDecl fd) (kIsDestructor K) /\
    Z.land property (kIsInlined K) = flag_if (FunctionDecl.isInlined fd) (kIsInlined K) /\
    Z.land property (kIsTemplateSpec K) = flag_if (isTemplated fd) (kIsTemplateSpec K).
Proof.
  intros Hapart HG Hdel.
  destruct (testbit_ExtraProperty K c fd HG Hdel) as (p & Hp & Hbits).
  exists p. split; [done |]. split_and!.
  - extra_mask_of K Hapart Hbits 0%nat.
  - extra_mask_of K Hapart Hbits 1%nat.
  - extra_mask_of K Hapart Hbits 2%nat.
  - extra_mask_of K Hapart Hbits 3%nat.
  - extra_mask_of K Hapart Hbits 4%nat.
  - extra_mask_of K Hapart Hbits 5%nat.
Qed.

Lemma ExtraProperty_bits_witness :
  exists property,
    ExtraProperty root_bits
      (of_FunctionDecl simple_interp (Some (constructor "Derived" false))) =
      Some property /\
    Z.land property (kIsOperator root_bits) = 0 /\
    Z.land property (kIsConversion root_bits) = 0 /\
    Z.land property (kIsConstructor root_bits) = kIsConstructor root_bits /\
    Z.land property (kIsDestructor root_bits) = 0 /\
    Z.land property (kIsInlined root_bits) = kIsInlined root_bits /\
    Z.land property (kIsTemplateSpec root_bits) = 0.
Proof.
  exact (ExtraProperty_bits root_bits
           (of_FunctionDecl simple_interp (Some (constructor "Derived" false)))
           (constructor "Derived" false) eq_refl eq_refl eq_refl).
Defined.

End Property_facts.

(** * The cursor between two steps *)

Module Step_facts.
Import TDictionary TClingMethodInfo Query_defs Cursor_defs Step_defs.
Import Query_facts Cursor_facts.

(** ** What a step leaves alone *)

Lemma advance_frame (c : t) :
  fTitle (state_of (advance c)) = fTitle c /\
  fNameCache (state_of (advance c)) = fNameCache c /\
  fInterp (state_of (advance c)) = fInterp c.
Proof.
  unfold advance. destruct (fFirstTime c); [done |].
  destruct (fUsingIter c) as [it|]; [|done].
  destruct (UsingIterator.to_bool it); [|done].
  by destruct (UsingIterator.seek _ _).
Qed.

Lemma next_context_frame (fuel : nat) (c : t) (fl : Flow) :
  next_context fuel c = Some fl ->
  fTitle (state_of fl) = fTitle c /\ fNameCache (state_of fl) = fNameCache c /\
  fInterp (state_of fl) = fInterp c /\ fAccessDecl (state_of fl) = fAccessDecl c.
Proof.
  revert c. induction fuel as [|fuel IH]; intros c; simpl.
  - destruct (fIter c); [discriminate |]. by intros [= <-].
  - destruct (fIter c); [|by intros [= <-]].
    destruct (fContexts c !! _) as [dc|]; [|by intros [= <-]].
    intros H. by apply IH in H.
Qed.

Lemma classify_frame (c : t) :
  fTitle (state_of (classify c)) = fTitle c /\
  fNameCache (state_of (classify c)) = fNameCache c /\
  fInterp (state_of (classify c)) = fInterp c.
Proof.
  unfold classify. destruct (fIter c) as [|d rest]; [done |].
  destruct d as [FD|ftd|ud|inTU isInline decls|a]; simpl; try done.
  - by destruct (FunctionDecl.isDeleted FD).
  - by destruct (inTU && isInline).
Qed.

Lemma loop_frame (fuel : nat) (c : t) (r : Z) (c' : t) :
  loop fuel c = Some (r, c') ->
  fTitle c' = fTitle c /\ fNameCache c' = fNameCache c /\ fInterp c' = fInterp c.
Proof.
  revert c. induction fuel as [|fuel IH]; intros c; [discriminate |].
  cbn [loop].
  pose proof (advance_frame (set_fTemplateSpec None c)) as HA.
  destruct (advance (set_fTemplateSpec None c)) as [r1 c1|c1]; simpl in HA.
  - by intros [= <- <-].
  - destruct (next_context (S fuel) c1) as [fl|] eqn:HN; [|discriminate].
    apply next_context_frame in HN.
    destruct fl as [r2 c2|c2]; simpl in HN.
    + intros [= <- <-]. destruct HA as (? & ? & ?), HN as (? & ? & ? & _).
      split_and!; congruence.
    + pose proof (classify_frame c2) as HC.
      destruct (classify c2) as [r3 c3|c3]; simpl in HC.
      * intros [= <- <-]. destruct HA as (? & ? & ?), HN as (? & ? & ? & _), HC as (? & ? & ?).
        split_and!; congruence.
      * intros HL. apply IH in HL.
        destruct HA as (? & ? & ?), HN as (? & ? & ? & _), HC as (? & ? & ?), HL as (? & ? & ?).
        split_and!; congruence.
Qed.

(** [InternalNext] empties the name cache and keeps the title. *)
Lemma InternalNext_frame (fuel : nat) (c : t) (r : Z) (c' : t) :
  InternalNext fuel c = Some (r, c') ->
  fTitle c' = fTitle c /\ fNameCache c' = "" /\ fInterp c' = fInterp c.
Proof.
  unfold InternalNext. destruct (negb _ && _).
  - by intros [= <- <-].
  - intros HL. by apply loop_frame in HL.
Qed.


(** ** The name cache and the title *)

Lemma IsValid_set_fNameCache (v : string) (c : t) :
  IsValid (set_fNameCache v c) = IsValid c.
Proof. reflexivity. Qed.

Lemma Name_found (M : TMetaUtils.t) (c : t) (fd : FunctionDecl.t) :
  GetDecl c = Some (DFunction fd) ->
  Name M c =
    if bool_decide (fNameCache c = "")
    then Some (Some (TMetaUtils.GetFunctionName M fd),
               set_fNameCache (TMetaUtils.GetFunctionName M fd) c)
    else Some (Some (fNameCache c), c).
Proof.
  intros HG.
  assert (IsValid c = true) as HV by (unfold IsValid; by rewrite HG).
  unfold Name, GetMethodDecl. rewrite HV, HG. simpl.
  by destruct (bool_decide (fNameCache c = "")).
Qed.

(** [InternalNext] invalidates the name cache: at the declaration a step
    leaves the cursor on, [Name] asks [GetFunctionName] for that
    declaration, whatever name was cached before the step. *)
Theorem Name_after_InternalNext (M : TMetaUtils.t) (fuel : nat) (c : t) (r : Z)
    (c' : t) (fd : FunctionDecl.t) :
  InternalNext fuel c = Some (r, c') ->
  GetDecl c' = Some (DFunction fd) ->
  Name M c' =
    Some (Some (TMetaUtils.GetFunctionName M fd),
          set_fNameCache (TMetaUtils.GetFunctionName M fd) c').
Proof.
  intros HN HG. apply InternalNext_frame in HN as (_ & Hcache & _).
  rewrite (Name_found M c' fd HG), Hcache. done.
Qed.

Lemma Name_after_InternalNext_witness :
  Name plain_names (in_methods [DFunction g_method]) =
    Some (Some "g", set_fNameCache "g" (in_methods [DFunction g_method])).
Proof.
  exact (Name_after_InternalNext plain_names 2
           (set_fNameCache "f" (in_methods [DFunction f_method; DFunction g_method]))
           1 (in_methods [DFunction g_method]) g_method eq_refl eq_refl).
Defined.

(** A name that [Name] has returned is cached: a second call returns it
    without consulting [GetFunctionName] again, and so does a call after
    [Init] has pointed the cursor at another function, since [Init]
    leaves the cache as it is. *)
Theorem Name_cached (M M' : TMetaUtils.t) (c : t) (name : string) (c' : t)
    (decl : FunctionDecl.t) :
  Name M c = Some (Some name, c') ->
  name <> "" ->
  Name M' c' = Some (Some name, c') /\
  Name M' (Init (Some decl) c') = Some (Some name, Init (Some decl) c').
Proof.
  intros HN Hne.
  assert (fNameCache c' = name /\ IsValid c' = true) as [Hc HV].
  { unfold Name in HN. destruct (IsValid c) eqn:HV; simpl in HN; [|done].
    case_bool_decide as He; simpl in HN.
    - destruct (GetMethodDecl c) as [[fd|]|]; try done.
      injection HN as <- <-. done.
    - by injection HN as <- <-. }
  split.
  - unfold Name. rewrite HV. simpl. rewrite bool_decide_eq_false_2 by congruence.
    simpl. by rewrite Hc.
  - unfold Name. cbn. rewrite bool_decide_eq_false_2 by congruence.
    simpl. by rewrite Hc.
Qed.

Lemma Name_cached_witness :
  Name f_annotated (set_fNameCache "f" (of_FunctionDecl simple_interp (Some f_method))) =
    Some (Some "f", set_fNameCache "f" (of_FunctionDecl simple_interp (Some f_method))) /\
  Name f_annotated
    (Init (Some g_method)
       (set_fNameCache "f" (of_FunctionDecl simple_interp (Some f_method)))) =
    Some (Some "f",
          Init (Some g_method)
            (set_fNameCache "f" (of_FunctionDecl simple_interp (Some f_method)))).
Proof.
  apply (Name_cached plain_names f_annotated
           (of_FunctionDecl simple_interp (Some f_method)) "f"
           (set_fNameCache "f" (of_FunctionDecl simple_interp (Some f_method)))
           g_method eq_refl).
  discriminate.
Defined.

(** [Title] keeps no cache, yet a title can outlive its declaration: for
    a declaration from an AST file that has no annotation, [Title]
    assigns nothing and returns [fTitle] as it stands, which after a
    step is still the title of the declaration before it. *)
Theorem Title_carried_over (M : TMetaUtils.t) (fuel : nat) (c : t) (title : string)
    (c1 : t) (r : Z) (c2 : t) (fd : FunctionDecl.t) :
  Title M c = Some (Some title, c1) ->
  InternalNext fuel c1 = Some (r, c2) ->
  GetDecl c2 = Some (DFunction fd) ->
  TMetaUtils.GetAnnotation M fd = None ->
  TMetaUtils.isFromASTFile M fd = true ->
  Title M c2 = Some (Some title, c2).
Proof.
  intros HT HN HG Hannot Hast.
  assert (fTitle c1 = title) as Ht1.
  { unfold Title in HT. destruct (negb (IsValid c)); [done |].
    destruct (GetMethodDecl c) as [[FD|]|]; try done.
    destruct (TMetaUtils.GetAnnotation M FD).
    - by injection HT as <- <-.
    - by injection HT as <- <-. }
  apply InternalNext_frame in HN as (Ht2 & _).
  assert (IsValid c2 = true) as HV by (unfold IsValid; by rewrite HG).
  unfold Title, GetMethodDecl. rewrite HV, HG. simpl.
  rewrite Hannot, Hast. simpl. congruence.
Qed.

Lemma Title_carried_over_witness :
  Title f_annotated (set_fTitle "about f" (in_methods [DFunction g_method])) =
    Some (Some "about f", set_fTitle "about f" (in_methods [DFunction g_method])).
Proof.
  exact (Title_carried_over f_annotated 2
           (in_methods [DFunction f_method; DFunction g_method]) "about f"
           (set_fTitle "about f" (in_methods [DFunction f_method; DFunction g_method]))
           1 (set_fTitle "about f" (in_methods [DFunction g_method])) g_method
           eq_refl eq_refl eq_refl eq_refl eq_refl).
Defined.


(** ** The declaration a step leaves the cursor on *)

Lemma on_function_answers (K : TDictionary.t) (ti : TClingTypeInfo) (c : t) :
  on_function c -> answers K ti c.
Proof.
  unfold answers, NArg, NDefaultArg, Property, ExtraProperty, Type_, GetMangledName,
    GetMethodDecl.
  intros [HG | [fd HG]].
  - assert (IsValid c = false) as -> by by apply IsValid_false.
    simpl. split_and!; by eexists.
  - assert (IsValid c = true) as -> by (unfold IsValid; by rewrite HG).
    rewrite HG. simpl. split_and!; try by eexists.
    + by destruct (FunctionDecl.isDeleted fd).
    + destruct (isa_CXXConstructorDecl fd); [|by eexists].
      by destruct (FunctionDecl.getTypeForDeclContext fd).
Qed.

Lemma using_on_function (c : t) (it : UsingIterator.t) :
  fDecl c = None -> fTemplateSpec c = None -> fUsingIter c = Some it ->
  on_function c.
Proof.
  intros HD HT HU. unfold on_function, GetDecl, GetDeclSlow. rewrite HD, HT, HU.
  destruct (UsingIterator.to_bool it); simpl; [|by left].
  destruct (UsingIterator.deref it) as [fd|]; simpl; [right; by exists fd | by left].
Qed.

Lemma loop_on_function (fuel : nat) (c : t) (r : Z) (c' : t) :
  loop fuel c = Some (r, c') -> fDecl c = None -> on_function c'.
Proof.
  revert c. induction fuel as [|fuel IH]; intros c; [discriminate |].
  cbn [loop]. intros HL HD.
  pose proof (advance_post (set_fTemplateSpec None c) eq_refl) as HA.
  destruct (advance (set_fTemplateSpec None c)) as [r1 c1|c1]; simpl in HA.
  - injection HL as <- <-.
    destruct HA as (_ & HT & _ & _ & HD1 & _ & _ & _ & it & HU & _).
    eapply using_on_function; [congruence | done | done].
  - destruct HA as (HT & _ & HD1 & _).
    destruct (next_context (S fuel) c1) as [fl|] eqn:HN; [|discriminate].
    apply next_context_post in HN as (Hfl & HT2 & _ & HD2 & HU2 & _).
    destruct fl as [r2 c2|c2]; simpl in *.
    + injection HL as <- <-. destruct Hfl as (_ & HI2 & _).
      destruct (fUsingIter c2) as [it|] eqn:HU.
      * eapply using_on_function; [congruence | congruence | done].
      * left. unfold GetDecl, GetDeclSlow, cur_decl.
        rewrite HD2, HD1, HT2, HT, HU, HI2. simpl. by rewrite HD.
    + pose proof (classify_post c2) as HC. rewrite HT2, HT in HC.
      specialize (HC eq_refl).
      destruct (classify c2) as [r3 c3|c3].
      * injection HL as <- <-.
        destruct HC as (_ & _ & [(FD & Hcur & _ & ->) | (ud & _ & ->)]).
        -- destruct (fUsingIter c2) as [it|] eqn:HU.
           ++ eapply using_on_function; [congruence | congruence | done].
           ++ right. exists FD. unfold GetDecl, GetDeclSlow.
              rewrite HD2, HD1, HT2, HT, HU. simpl. by rewrite HD.
        -- eapply using_on_function; simpl; [congruence | congruence | done].
      * destruct HC as (_ & _ & HD3 & _). apply IH in HL; [done | simpl in *; congruence].
Qed.

(** Whatever a step returns, it leaves an iterating cursor on a function
    or on no declaration at all, never on a declaration of another kind:
    no query on the cursor runs into the failed cast of
    [GetMethodDecl()]. *)
Theorem InternalNext_answers (K : TDictionary.t) (ti : TClingTypeInfo) (fuel : nat)
    (c : t) (r : Z) (c' : t) :
  iterating c ->
  InternalNext fuel c = Some (r, c') ->
  on_function c' /\ answers K ti c'.
Proof.
  intros HD HN.
  assert (on_function c') as Hon; [|split; [done | by apply on_function_answers]].
  unfold InternalNext in HN. destruct (negb _ && _) eqn:Hearly.
  - injection HN as <- <-.
    apply andb_true_iff in Hearly as [_ Hcur]. apply bool_decide_eq_true in Hcur.
    unfold on_function, GetDecl, GetDeclSlow. simpl. rewrite HD.
    destruct (fTemplateSpec c) as [spec|]; [right; by exists spec |].
    destruct (fUsingIter c) as [it|]; [|by left].
    destruct (UsingIterator.to_bool it); simpl; [|by left].
    destruct (UsingIterator.deref it) as [fd|]; simpl; [right; by exists fd | by left].
  - by apply loop_on_function in HN.
Qed.

Lemma InternalNext_answers_witness :
  on_function (in_methods [DFunction g_method]) /\
  answers root_bits None (in_methods [DFunction g_method]).
Proof.
  exact (InternalNext_answers root_bits None 2
           (in_methods [DFunction f_method; DFunction g_method]) 1
           (in_methods [DFunction g_method]) eq_refl eq_refl).
Defined.

(** ** The first step after construction *)

Lemma loop_stopped (fuel : nat) (c : t) (c' : t) :
  loop fuel c = Some (1, c') -> fUsingIter c = None -> stopped c'.
Proof.
  revert c. induction fuel as [|fuel IH]; intros c; [discriminate |].
  cbn [loop]. intros HL HU.
  assert (exists c1, advance (set_fTemplateSpec None c) = Next_stmt c1 /\
            fUsingIter c1 = None /\ fTemplateSpec c1 = None) as (c1 & HA & HU1 & HT1).
  { unfold advance. simpl. rewrite HU. destruct (fFirstTime c); by eexists. }
  rewrite HA in HL.
  destruct (next_context (S fuel) c1) as [fl|] eqn:HN; [|discriminate].
  apply next_context_post in HN as (Hfl & HT2 & _ & _ & HU2 & _).
  destruct fl as [r2 c2|c2]; simpl in *.
  - destruct Hfl as (-> & _). discriminate.
  - pose proof (classify_post c2) as HC. rewrite HT2, HT1 in HC.
    specialize (HC eq_refl).
    destruct (classify c2) as [r3 c3|c3].
    + injection HL as -> <-.
      destruct HC as (_ & _ & [(FD & Hcur & Hdel & ->) | (ud & Hcur & ->)]);
        unfold stopped, cur_decl in *; simpl.
      * destruct (fIter c2) as [|d rest]; [done |]. by injection Hcur as ->.
      * destruct (fIter c2) as [|d rest]; [done |]. by injection Hcur as ->.
    + destruct HC as (_ & _ & _ & _ & HU3 & _). apply IH in HL; [done | congruence].
Qed.

Lemma Next_stopped (fuel : nat) (c : t) :
  stopped c -> fFirstTime c = true -> fTemplateSpec c = None ->
  fNameCache c = "" -> (0 < fuel)%nat ->
  Next fuel c = Some (1, set_fFirstTime false c).
Proof.
  intros Hs HF HT Hc Hfuel. destruct fuel as [|fuel]; [lia |].
  destruct c as [D nc interp ctxs first idx it title spec ui ad]. simpl in *. subst.
  unfold stopped in Hs. simpl in Hs.
  destruct it as [|d rest]; [done |].
  destruct d as [FD|ftd|ud|inTU isInline decls|a]; try done.
  - unfold Next, InternalNext. cbn. by rewrite Hs.
  - destruct Hs as [-> ->]. reflexivity.
Qed.

(** The first call of [Next] after construction does not move the
    cursor: the constructor has already stepped to the first function or
    using-declaration, and the call returns [1] with the cursor where the
    constructor left it, only the first-time flag cleared. *)
Theorem first_Next_stays (fuel fuel' : nat) (interp : Interpreter.t)
    (ci : option TClingClassInfo.t) (c0 : t) :
  of_ClassInfo fuel interp ci = Some c0 ->
  fIter c0 <> [] ->
  (0 < fuel')%nat ->
  Next fuel' c0 = Some (1, set_fFirstTime false c0) /\
  GetDecl (set_fFirstTime false c0) = GetDecl c0.
Proof.
  intros Hof Hne Hfuel. split; [|reflexivity].
  unfold of_ClassInfo in Hof.
  destruct ci as [ci|]; [|by injection Hof as <-].
  destruct (TClingClassInfo.IsValid ci); simpl in Hof; [|by injection Hof as <-].
  destruct (InternalNext fuel _) as [[r c1]|] eqn:HN; [|discriminate].
  injection Hof as <-. simpl in Hne.
  pose proof (InternalNext_frame _ _ _ _ HN) as (_ & Hcache & _).
  unfold InternalNext in HN. simpl in HN.
  pose proof (loop_post _ _ _ _ HN) as (Hr & HT & _ & _ & H0 & _).
  destruct Hr as [-> | ->]; [by destruct Hne; apply H0 |].
  apply loop_stopped in HN; [|done].
  apply Next_stopped; done.
Qed.

Lemma first_Next_stays_witness :
  Next 1 (set_fFirstTime true (in_methods [DFunction f_method; DFunction g_method])) =
    Some (1, in_methods [DFunction f_method; DFunction g_method]) /\
  GetDecl (in_methods [DFunction f_method; DFunction g_method]) =
    GetDecl (set_fFirstTime true (in_methods [DFunction f_method; DFunction g_method])).
Proof.
  apply (first_Next_stays 1 1 simple_interp (Some two_methods)
           (set_fFirstTime true (in_methods [DFunction f_method; DFunction g_method]))
           eq_refl).
  - discriminate.
  - lia.
Defined.

End Step_facts.

(** * The order of the walk *)

Module Walk_facts.
Import TClingMethodInfo Query_defs Cursor_defs Step_defs Walk_defs.
Import Query_facts Cursor_facts Step_facts.

Lemma loop_after_advance (fuel : nat) (c : t) :
  loop (S fuel) c =
    match advance (set_fTemplateSpec None c) with
    | Return r c => Some (r, c)
    | Next_stmt c1 => after_advance (S fuel) fuel c1
    end.
Proof. reflexivity. Qed.

Lemma queue_cons (c : t) (dc : DeclContext) (q : list DeclContext) :
  0 <= fContextIdx c -> queue c = dc :: q ->
  fContexts c !! Z.to_nat (fContextIdx c + 1) = Some dc /\
  drop (S (Z.to_nat (fContextIdx c + 1))) (fContexts c) = q /\
  (Z.to_nat (fContextIdx c + 1) < length (fContexts c))%nat.
Proof.
  unfold queue. intros Hidx Hq.
  replace (Z.to_nat (fContextIdx c + 1)) with (S (Z.to_nat (fContextIdx c))) by lia.
  assert (fContexts c !! S (Z.to_nat (fContextIdx c)) = Some dc) as Hl.
  { assert (drop (S (Z.to_nat (fContextIdx c))) (fContexts c) !! 0%nat = Some dc) as H
      by by rewrite Hq.
    rewrite lookup_drop in H. by rewrite Nat.add_0_r in H. }
  split; [done |]. split.
  - replace (S (S (Z.to_nat (fContextIdx c))))
      with (S (Z.to_nat (fContextIdx c)) + 1)%nat by lia.
    by rewrite <- drop_drop, Hq.
  - by apply lookup_lt_Some in Hl.
Qed.


Lemma to_unsigned_small (z : Z) : 0 <= z < 2 ^ UINT_WIDTH -> to_unsigned z = z.
Proof. intros H. unfold to_unsigned. by apply Z.mod_small. Qed.

Lemma advance_outer (c : t) :
  fFirstTime c = false -> using_done c ->
  advance c = Next_stmt (set_fIter (tail (fIter c)) c).
Proof.
  intros HF HU. unfold advance. rewrite HF.
  destruct (fUsingIter c) as [it|] eqn:Hit; [|done].
  by rewrite (HU it Hit).
Qed.

Lemma after_advance_walk (it : decl_iterator) (q : list DeclContext) (s : list Decl) :
  walk it q s ->
  forall (c1 : t) (fuel_contexts fuel : nat),
    fIter c1 = it -> queue c1 = q -> fFirstTime c1 = false ->
    fTemplateSpec c1 = None -> using_done c1 -> room c1 s ->
    (length q + 2 * length s < fuel_contexts)%nat ->
    (length q + 2 * length s <= fuel)%nat ->
    lands c1 s (after_advance fuel_contexts fuel c1).
Proof.
  induction 1 as [|dc q s W IH|d it q s W IH];
    intros c1 fn fl HI HQ HF HT HU (Hidx & Hlen & Hmax) Hfn Hfl.
  - (* the scope list is exhausted *)
    unfold lands, after_advance. simpl.
    destruct fn as [|fn]; [simpl in Hfn; lia |].
    cbn [next_context]. rewrite HI. cbn.
    rewrite to_unsigned_small by (simpl in Hmax; lia).
    assert (length (fContexts c1) <= S (Z.to_nat (fContextIdx c1)))%nat as Hle.
    { unfold queue in HQ. apply (f_equal length) in HQ.
      rewrite length_drop in HQ. simpl in HQ. lia. }
    rewrite lookup_ge_None_2 by lia.
    eexists. split; [reflexivity |]. cbn. simpl in Hmax. split_and!; try done; lia.
  - (* on to the next context *)
    destruct fn as [|fn]; [simpl in Hfn; lia |].
    destruct (queue_cons c1 dc q Hidx HQ) as (Hdc & Hq' & Hlt).
    assert (after_advance (S fn) fl c1 =
            after_advance fn fl
              (set_fIter (decls_begin dc) (set_fContextIdx (fContextIdx c1 + 1) c1)))
      as ->.
    { unfold after_advance. cbn [next_context]. rewrite HI. cbn.
      rewrite to_unsigned_small by (simpl in Hmax; lia). by rewrite Hdc. }
    set (c2 := set_fIter (decls_begin dc) (set_fContextIdx (fContextIdx c1 + 1) c1)).
    assert (queue c2 = q) as HQ2 by exact Hq'.
    assert (lands c2 s (after_advance fn fl c2)) as HL.
    { apply IH; try done.
      - split_and!; simpl in *; lia.
      - simpl in Hfn. lia.
      - simpl in Hfl. lia. }
    unfold lands in *. destruct (next_stop s) as [[d s']|].
    + destruct HL as (c' & it' & Hres & HI' & HW' & Hroom & HD' & HF' & HT' & Hint & Hq & HU').
      exists c', it'. rewrite HQ2 in Hq. rewrite HQ. simpl.
      split_and!; try done. lia.
    + destruct HL as (c' & Hres & HL). by exists c'.
  - (* a declaration under the outer iterator *)
    assert (next_context fn c1 = Some (Next_stmt c1)) as HN
      by (destruct fn; simpl; by rewrite HI).
    assert (room c1 s) as Hroom by (simpl in Hmax; split_and!; [done | done | lia]).
    destruct (is_stop d) eqn:Hstop.
    + (* the classification returns *)
      unfold lands, after_advance. rewrite HN. simpl. rewrite Hstop.
      assert (collected d = []) as Hcol by (by destruct d).
      rewrite Hcol, app_nil_r in W.
      destruct d as [FD|ftd|ud|inTU isInline decls|a]; try done; simpl in Hstop;
        unfold classify; rewrite HI; cbn; rewrite ?HT.
      * apply negb_true_iff in Hstop. rewrite Hstop.
        exists c1, it. rewrite HQ. split_and!; try done. simpl. lia.
      * eexists _, it. split; [reflexivity |]. cbn.
        fold (queue c1). rewrite HQ.
        split_and!; try done. lia.
    + (* the classification passes on: one more round *)
      destruct fl as [|fl]; [simpl in Hfl; lia |].
      assert (exists c3, classify c1 = Next_stmt c3 /\ fIter c3 = d :: it /\
                fContexts c3 = fContexts c1 ++ collected d /\
                fContextIdx c3 = fContextIdx c1 /\ fFirstTime c3 = false /\
                fUsingIter c3 = fUsingIter c1 /\ fDecl c3 = fDecl c1 /\
                fInterp c3 = fInterp c1)
        as (c3 & HC & HI3 & HC3 & HX3 & HF3 & HU3 & HD3 & Hint3).
      { destruct d as [FD|ftd|ud|inTU isInline decls|a]; try done; simpl in Hstop;
          unfold classify; rewrite HI; cbn; rewrite ?HT.
        - apply negb_false_iff in Hstop. rewrite Hstop.
          exists c1. by rewrite app_nil_r.
        - eexists. split; [reflexivity |]. simpl. by rewrite app_nil_r.
        - destruct (inTU && isInline); eexists; (split; [reflexivity |]); simpl;
            by rewrite ?app_nil_r.
        - exists c1. by rewrite app_nil_r. }
      set (c4 := set_fIter it (set_fTemplateSpec None c3)).
      assert (after_advance fn (S fl) c1 = after_advance (S fl) fl c4) as ->.
      { unfold after_advance at 1. rewrite HN, HC. rewrite loop_after_advance.
        rewrite advance_outer; [|exact HF3 |].
        - simpl. by rewrite HI3.
        - intros u Hu. apply (HU u). simpl in Hu. congruence. }
      assert (queue c4 = q ++ collected d) as HQ4.
      { unfold queue in *. simpl. rewrite HC3, HX3, drop_app_le by lia.
        by rewrite HQ. }
      assert (lands c4 s (after_advance (S fl) fl c4)) as HL.
      { apply IH; try done.
        - intros u Hu. apply (HU u). simpl in Hu. congruence.
        - unfold room. simpl. rewrite HC3, HX3, length_app.
          assert (length (collected d) <= 1)%nat
            by (destruct d as [| | |? ? ?|]; simpl; try lia;
                destruct (_ && _); simpl; lia).
          simpl in Hmax. split_and!; lia.
        - rewrite length_app.
          assert (length (collected d) <= 1)%nat
            by (destruct d as [| | |? ? ?|]; simpl; try lia;
                destruct (_ && _); simpl; lia).
          simpl in Hfl. lia.
        - rewrite length_app.
          assert (length (collected d) <= 1)%nat
            by (destruct d as [| | |? ? ?|]; simpl; try lia;
                destruct (_ && _); simpl; lia).
          simpl in Hfl. lia. }
      unfold lands in *. simpl. rewrite Hstop.
      assert (length (collected d) <= 1)%nat as Hcol
        by (destruct d as [| | |? ? ?|]; simpl; try lia;
            destruct (_ && _); simpl; lia).
      destruct (next_stop s) as [[d' s']|].
      * destruct HL as (c' & it' & Hres & HI' & HW' & Hroom' & HD' & HF' & HT' & Hint
                        & Hq & HU').
        exists c', it'. rewrite HQ4, length_app in Hq. rewrite HQ.
        simpl in HD', Hint, HU'. rewrite HD3 in HD'. rewrite Hint3 in Hint, HU'.
        rewrite HU3 in HU'.
        split_and!; try done. simpl. lia.
      * destruct HL as (c' & Hres & HI' & HD' & HF' & HT' & HU' & Hint & Hx).
        exists c'. simpl in HD', Hint, HU'. destruct Hx.
        split_and!; try done; congruence.
Qed.


(** ** What the reports begin with *)

Lemma next_stop_Some (s : list Decl) (d : Decl) (s' : list Decl) :
  next_stop s = Some (d, s') -> is_stop d = true.
Proof.
  induction s as [|d0 s IH]; simpl; [done |].
  destruct (is_stop d0) eqn:Hd0; [|exact IH]. by intros [= <- <-].
Qed.

Lemma reports_next_stop (interp : Interpreter.t) (stale : bool) (s : list Decl) :
  reports interp stale s =
    match next_stop s with
    | None => []
    | Some (d, s') => reports interp stale (d :: s')
    end.
Proof.
  induction s as [|d s IH]; [done |].
  cbn [next_stop]. destruct (is_stop d) eqn:Hstop; [done |].
  rewrite <- IH.
  destruct d as [FD|ftd|ud|inTU isInline decls|a]; try done.
  simpl in *. apply negb_false_iff in Hstop. by rewrite Hstop.
Qed.

Lemma later_seek (interp : Interpreter.t) (rest : list UsingShadowDecl.t)
    (it : UsingIterator.t) :
  UsingIterator.seek interp rest = Some it ->
  exists fd, UsingIterator.deref it = Some fd /\
    later interp (tail rest) =
      Some (DFunction fd) :: later interp (tail (UsingIterator.fIter it)).
Proof.
  induction rest as [|x rest IH]; simpl; [discriminate |].
  destruct rest as [|y rest']; [discriminate |].
  cbn [UsingIterator.to_bool UsingIterator.fIter]. cbn [later].
  destruct (UsingIterator.deref (UsingIterator.mk interp (y :: rest'))) as [fd|] eqn:Hd.
  - intros [= <-]. exists fd. by rewrite Hd.
  - intros Hs. destruct (IH Hs) as (fd & Hfd & Hl). exists fd. by split.
Qed.

Lemma later_seek_None (interp : Interpreter.t) (rest : list UsingShadowDecl.t) :
  UsingIterator.seek interp rest = None -> later interp (tail rest) = [].
Proof.
  induction rest as [|x rest IH]; simpl; [done |].
  destruct rest as [|y rest']; [done |].
  cbn [UsingIterator.to_bool UsingIterator.fIter]. cbn [later].
  destruct (UsingIterator.deref (UsingIterator.mk interp (y :: rest'))) as [fd|] eqn:Hd;
    [discriminate |].
  intros Hs. apply IH in Hs. simpl in Hs. by rewrite Hs.
Qed.

(** The stale state of a cursor: it holds a sub-iterator, at its end. *)
Lemma landed_reports (c : t) (d : Decl) (it : decl_iterator) (s : list Decl)
    (held : option UsingIterator.t) :
  fDecl c = None -> fTemplateSpec c = None -> fIter c = d :: it ->
  is_stop d = true ->
  (forall u, held = Some u -> UsingIterator.to_bool u = false) ->
  match d with
  | DUsing udecl => fUsingIter c = Some (UsingIterator.of_decl (fInterp c) udecl)
  | _ => fUsingIter c = held
  end ->
  reports (fInterp c) (bool_decide (is_Some held)) (d :: s) =
    GetDecl c :: expected c s.
Proof.
  intros HD HT HI Hstop Hdone HU.
  unfold GetDecl, GetDeclSlow, expected, cur_decl. rewrite HD, HT, HI.
  destruct d as [FD|ftd|ud|inTU isInline decls|a]; try done; simpl in *.
  - apply negb_true_iff in Hstop. rewrite Hstop, HU.
    destruct held as [u|]; simpl.
    + by rewrite (Hdone u eq_refl).
    + done.
  - rewrite HU. unfold UsingIterator.to_bool, UsingIterator.of_decl. simpl.
    by destruct (UsingDecl.shadows ud).
Qed.


(** ** One call of [Next] *)

Lemma outer_step (fuel : nat) (c1 : t) (s : list Decl) :
  walk (fIter c1) (queue c1) s ->
  fDecl c1 = None -> fFirstTime c1 = false -> fTemplateSpec c1 = None ->
  using_done c1 ->
  (forall u, fUsingIter c1 = Some u -> UsingIterator.fInterp u = fInterp c1) ->
  room c1 s ->
  (length (queue c1) + 2 * length s <= fuel)%nat ->
  steps c1 s (reports (fInterp c1) (bool_decide (is_Some (fUsingIter c1))) s)
    (after_advance (S fuel) fuel c1).
Proof.
  intros W HD HF HT HU Hint Hroom Hfuel.
  pose proof (after_advance_walk _ _ _ W c1 (S fuel) fuel eq_refl eq_refl HF HT HU
                Hroom ltac:(lia) Hfuel) as HL.
  unfold lands in HL. rewrite reports_next_stop.
  destruct (next_stop s) as [[d s']|] eqn:Hns.
  - destruct HL as (c' & it' & Hres & HI' & HW' & Hroom' & HD' & HF' & HT' & Hint'
                    & Hq & HU').
    exists 1, c'. split; [done |]. right. split; [done |]. exists s'.
    split; [|split; [|done]].
    + unfold at_stop. split_and!; [congruence | done | done | | done | by exists d, it'].
      intros u Hu. destruct d; try (rewrite HU' in Hu; rewrite Hint'; by apply Hint).
      destruct HU' as [HU' _]. rewrite HU' in Hu. injection Hu as <-.
      by rewrite Hint'.
    + rewrite <- Hint'.
      apply (landed_reports c' d it' s' (fUsingIter c1));
        [congruence | done | done | by eapply next_stop_Some | exact HU |].
      destruct d; try done. rewrite Hint'. by destruct HU'.
  - destruct HL as (c' & Hres & HI' & _ & _ & _ & _ & _ & Hx).
    exists 0, c'. split; [done |]. by left.
Qed.


Lemma steps_from (c c1 : t) (s : list Decl) (todo : list (option Decl))
    (res : option (Z * t)) :
  queue c1 = queue c -> steps c1 s todo res -> steps c s todo res.
Proof. unfold steps. intros ->. done. Qed.

Lemma Next_at_stop (fuel : nat) (c : t) (s : list Decl) :
  at_stop c s -> (length (queue c) + 2 * length s < fuel)%nat ->
  steps c s (expected c s) (Next fuel c).
Proof.
  intros (HD & HF & HT & Hint & Hroom & d & it & HI & W) Hfuel.
  destruct fuel as [|fuel]; [lia |].
  unfold Next, InternalNext.
  assert (negb (fFirstTime (set_fNameCache "" c)) &&
          bool_decide (cur_decl (set_fNameCache "" c) = None) = false) as ->.
  { unfold cur_decl. simpl. rewrite HI. simpl. apply andb_false_r. }
  rewrite loop_after_advance. unfold expected.
  destruct (fUsingIter c) as [u|] eqn:HU.
  - destruct (UsingIterator.to_bool u) eqn:Hb.
    + destruct (UsingIterator.seek (UsingIterator.fInterp u) (UsingIterator.fIter u))
        as [u'|] eqn:Hs.
      * (* the sub-iterator steps to a later shadow *)
        unfold advance. simpl. rewrite HF, HU, Hb, Hs.
        destruct (later_seek _ _ _ Hs) as (fd & Hfd & Hl).
        destruct (seek_resolves _ _ _ Hs) as (_ & Hb' & Hi' & _).
        eexists 1, _. split; [reflexivity |]. right. split; [done |]. exists s.
        split; [|split; [|done]].
        -- unfold at_stop. simpl. split_and!; try done.
           ++ intros ? [= <-]. rewrite Hi'. by apply Hint.
           ++ by exists d, it.
        -- unfold GetDecl, GetDeclSlow, expected. simpl.
           rewrite HD, Hb', Hfd, Hl, Hi'. simpl. by rewrite (Hint u eq_refl).
      * (* the sub-iterator runs out and is discarded *)
        set (c1 := set_fIter it
                     (set_fAccessDecl None
                        (set_fUsingIter None
                           (set_fTemplateSpec None (set_fNameCache "" c))))).
        assert (advance (set_fTemplateSpec None (set_fNameCache "" c)) = Next_stmt c1)
          as -> by (unfold advance; simpl; by rewrite HF, HU, Hb, Hs, HI).
        rewrite (later_seek_None _ _ Hs), app_nil_l.
        apply (steps_from c c1); [done |].
        change (steps c1 s
                  (reports (fInterp c1) (bool_decide (is_Some (fUsingIter c1))) s)
                  (after_advance (S fuel) fuel c1)).
        apply outer_step; try done. change (queue c1) with (queue c). lia.
    + (* a sub-iterator at its end stays *)
      set (c1 := set_fIter it (set_fTemplateSpec None (set_fNameCache "" c))).
      assert (advance (set_fTemplateSpec None (set_fNameCache "" c)) = Next_stmt c1)
        as -> by (unfold advance; simpl; by rewrite HF, HU, Hb, HI).
      apply (steps_from c c1); [done |].
      assert (fUsingIter c1 = Some u) as HU1 by exact HU.
      replace (reports (fInterp c) true s)
        with (reports (fInterp c1) (bool_decide (is_Some (fUsingIter c1))) s)
        by (by rewrite HU1).
      apply outer_step; try done.
      * intros ? Hu. rewrite HU1 in Hu. by injection Hu as <-.
      * intros ? Hu. rewrite HU1 in Hu. injection Hu as <-. by apply Hint.
      * change (queue c1) with (queue c). lia.
  - set (c1 := set_fIter it (set_fTemplateSpec None (set_fNameCache "" c))).
    assert (advance (set_fTemplateSpec None (set_fNameCache "" c)) = Next_stmt c1)
      as -> by (unfold advance; simpl; by rewrite HF, HU, HI).
    apply (steps_from c c1); [done |].
    assert (fUsingIter c1 = None) as HU1 by exact HU.
    replace (reports (fInterp c) false s)
      with (reports (fInterp c1) (bool_decide (is_Some (fUsingIter c1))) s)
      by (by rewrite HU1).
    apply outer_step; try done.
    + intros ? Hu. rewrite HU1 in Hu. done.
    + intros ? Hu. rewrite HU1 in Hu. done.
    + change (queue c1) with (queue c). lia.
Qed.


(** ** The loop [while (m.Next())] *)

Lemma visits_at_stop (fuel n : nat) (c : t) (s : list Decl) :
  at_stop c s -> (length (queue c) + 2 * length s < fuel)%nat ->
  visits fuel n c = Some (take n (expected c s)).
Proof.
  revert c s. induction n as [|n IH]; intros c s Hat Hfuel; [done |].
  cbn [visits].
  destruct (Next_at_stop fuel c s Hat Hfuel)
    as (r & c1 & -> & [(-> & -> & _) | (-> & s1 & Hat1 & -> & Hm)]); [done |].
  destruct (decide (1 = 0)) as [|_]; [done |].
  rewrite (IH c1 s1 Hat1) by lia. done.
Qed.

Lemma set_fFirstTime_twice (c : t) :
  fFirstTime c = false -> set_fFirstTime false (set_fFirstTime true c) = c.
Proof. destruct c. simpl. by intros ->. Qed.

Lemma visits_of_ClassInfo (fuel n : nat) (interp : Interpreter.t)
    (ci : TClingClassInfo.t) (s : list Decl) :
  TClingClassInfo.IsValid ci = true ->
  TClingClassInfo.collectAllContexts ci <> [] ->
  walk (decls_begin (TClingClassInfo.GetDecl ci))
    (drop 1 (TClingClassInfo.collectAllContexts ci)) s ->
  Z.of_nat (length (TClingClassInfo.collectAllContexts ci) + length s) + 1
    < 2 ^ UINT_WIDTH ->
  (length (TClingClassInfo.collectAllContexts ci) + 2 * length s < fuel)%nat ->
  of_ClassInfo fuel interp (Some ci) ≫= visits fuel n =
    Some (take n (reports interp false s)).
Proof.
  intros Hvalid Hne W Hmax Hfuel.
  unfold of_ClassInfo. rewrite Hvalid. simpl negb. cbv iota.
  destruct fuel as [|fuel]; [lia |].
  set (c1 := mk None "" interp (TClingClassInfo.collectAllContexts ci) false 0
               (decls_begin (TClingClassInfo.GetDecl ci)) "" None None None).
  assert (length (drop 1 (TClingClassInfo.collectAllContexts ci)) <
          length (TClingClassInfo.collectAllContexts ci))%nat as Hdrop.
  { rewrite length_drop. destruct (TClingClassInfo.collectAllContexts ci); [done |].
    simpl. lia. }
  assert (steps c1 s (reports (fInterp c1) (bool_decide (is_Some (fUsingIter c1))) s)
            (after_advance (S fuel) fuel c1)) as Hsteps.
  { apply outer_step; try done.
    - split_and!; simpl; [done | lia | done].
    - change (queue c1) with (drop 1 (TClingClassInfo.collectAllContexts ci)). lia. }
  change (reports (fInterp c1) (bool_decide (is_Some (fUsingIter c1))) s)
    with (reports interp false s) in Hsteps.
  set (c0 := set_fIter (decls_begin (TClingClassInfo.GetDecl ci))
               (set_fContexts (TClingClassInfo.collectAllContexts ci)
                  (mk None "" interp [] true 0 [] "" None None None))).
  assert (InternalNext (S fuel) c0 = after_advance (S fuel) fuel c1) as HIN
    by reflexivity.
  assert (loop (S fuel) (set_fNameCache "" c0) = after_advance (S fuel) fuel c1)
    as Hloop by reflexivity.
  destruct Hsteps as (r & c' & HN & Hcases).
  rewrite <- HIN in HN. rewrite HN. rewrite HIN, <- Hloop in HN. cbn [mbind option_bind].
  destruct n as [|n]; [done |]. cbn [visits].
  destruct Hcases as [(-> & -> & HI' & Hx) | (-> & s1 & Hat1 & -> & Hm)].
  - destruct (Next_exhausted (S fuel) (set_fFirstTime true c')) as (c2 & -> & _);
      [by split | lia | done].
  - pose proof (loop_frame _ _ _ _ HN) as (_ & Hcache & _).
    pose proof (loop_stopped _ _ _ HN eq_refl) as Hstopped.
    destruct Hat1 as (HD' & HF' & HT' & Hrest).
    rewrite (Next_stopped (S fuel) (set_fFirstTime true c')); try done; [|lia].
    rewrite (set_fFirstTime_twice c' HF').
    destruct (decide (1 = 0)) as [|_]; [done |].
    rewrite (visits_at_stop (S fuel) n c' s1);
      [done | exact (conj HD' (conj HF' (conj HT' Hrest))) |].
    change (queue c1) with (drop 1 (TClingClassInfo.collectAllContexts ci)) in Hm.
    lia.
Qed.


(** A loop [while (m.Next())] over a cursor made from a scope reports,
    in this order, what [reports] tells of the declarations the outer
    iterator comes by: the declarations of the scope itself, then those
    of the collected contexts from the second on (the first is taken to
    be the scope and is never entered by index), then those of the
    inline namespaces of the translation unit passed on the way.  Every
    call returns, and the calls after the last report return [0]. *)
Theorem visits_in_order (fuel n : nat) (interp : Interpreter.t)
    (ci : TClingClassInfo.t) (s : list Decl) :
  TClingClassInfo.IsValid ci = true ->
  TClingClassInfo.collectAllContexts ci <> [] ->
  walk (decls_begin (TClingClassInfo.GetDecl ci))
    (drop 1 (TClingClassInfo.collectAllContexts ci)) s ->
  Z.of_nat (length (TClingClassInfo.collectAllContexts ci) + length s) + 1
    < 2 ^ UINT_WIDTH ->
  (length (TClingClassInfo.collectAllContexts ci) + 2 * length s < fuel)%nat ->
  of_ClassInfo fuel interp (Some ci) ≫= visits fuel n =
    Some (take n (reports interp false s)).
Proof. apply visits_of_ClassInfo. Qed.

Lemma visits_in_order_witness :
  of_ClassInfo 12 lookup_interp (Some (TClingClassInfo.mk true scenario [scenario]))
    ≫= visits 12 10 =
  Some [Some (DFunction f_method); Some (DFunction h_method);
        Some (DFunction destructor)].
Proof.
  apply (visits_in_order 12 10 lookup_interp
           (TClingClassInfo.mk true scenario [scenario]) scenario).
  - reflexivity.
  - discriminate.
  - repeat constructor.
  - reflexivity.
  - vm_compute. lia.
Defined.

Lemma reports_app_functions (interp : Interpreter.t) (stale : bool)
    (pre rest : list Decl) :
  Forall (fun d => is_using d = false) pre ->
  reports interp stale (pre ++ rest) =
    ((fun d => if stale then None else Some d) <$> List.filter is_stop pre)
    ++ reports interp stale rest.
Proof.
  induction 1 as [|d pre Hd _ IH]; [done |].
  destruct d as [FD|ftd|ud|inTU isInline decls|a]; try done; simpl;
    rewrite ?IH; try done.
  by destruct (FunctionDecl.isDeleted FD).
Qed.

(** Over a scope without using-declarations the loop reports the
    functions that are not deleted, each as itself, in the order of the
    walk, and nothing else. *)
Theorem visits_functions (fuel n : nat) (interp : Interpreter.t)
    (ci : TClingClassInfo.t) (s : list Decl) :
  TClingClassInfo.IsValid ci = true ->
  TClingClassInfo.collectAllContexts ci <> [] ->
  walk (decls_begin (TClingClassInfo.GetDecl ci))
    (drop 1 (TClingClassInfo.collectAllContexts ci)) s ->
  Forall (fun d => is_using d = false) s ->
  Z.of_nat (length (TClingClassInfo.collectAllContexts ci) + length s) + 1
    < 2 ^ UINT_WIDTH ->
  (length (TClingClassInfo.collectAllContexts ci) + 2 * length s < fuel)%nat ->
  of_ClassInfo fuel interp (Some ci) ≫= visits fuel n =
    Some (take n (Some <$> List.filter is_stop s)).
Proof.
  intros Hvalid Hne W Hnu Hmax Hfuel.
  rewrite (visits_of_ClassInfo fuel n interp ci s) by done.
  rewrite <- (app_nil_r s) at 1. rewrite reports_app_functions by done.
  simpl. by rewrite app_nil_r.
Qed.

(** The functions of the inline namespace come last: "they will be
    traversed later". *)
Lemma visits_functions_witness :
  of_ClassInfo 10 simple_interp
    (Some (TClingClassInfo.mk true with_inline_namespace [with_inline_namespace]))
    ≫= visits 10 5 =
  Some [Some (DFunction (free_function "f")); Some (DFunction (free_function "h"));
        Some (DFunction (free_function "g"))].
Proof.
  apply (visits_functions 10 5 simple_interp
           (TClingClassInfo.mk true with_inline_namespace [with_inline_namespace])
           [DFunction (free_function "f");
            DNamespace true true [DFunction (free_function "g")];
            DFunction (free_function "h"); DFunction (free_function "g")]).
  - reflexivity.
  - discriminate.
  - repeat constructor.
  - repeat constructor.
  - reflexivity.
  - vm_compute. lia.
Defined.

(** The sub-iterator of a using-declaration without shadows is never
    discarded: in a scope whose only using-declaration has no shadows,
    the functions before it are reported as themselves, and the
    using-declaration and every function after it are reported with a
    null current declaration. *)
Theorem null_after_empty_using (fuel n : nat) (interp : Interpreter.t)
    (ci : TClingClassInfo.t) (pre post : list Decl) (udecl : UsingDecl.t) :
  TClingClassInfo.IsValid ci = true ->
  TClingClassInfo.collectAllContexts ci <> [] ->
  walk (decls_begin (TClingClassInfo.GetDecl ci))
    (drop 1 (TClingClassInfo.collectAllContexts ci)) (pre ++ DUsing udecl :: post) ->
  UsingDecl.shadows udecl = [] ->
  Forall (fun d => is_using d = false) pre ->
  Forall (fun d => is_using d = false) post ->
  Z.of_nat (length (TClingClassInfo.collectAllContexts ci)
            + length (pre ++ DUsing udecl :: post)) + 1 < 2 ^ UINT_WIDTH ->
  (length (TClingClassInfo.collectAllContexts ci)
   + 2 * length (pre ++ DUsing udecl :: post) < fuel)%nat ->
  of_ClassInfo fuel interp (Some ci) ≫= visits fuel n =
    Some (take n ((Some <$> List.filter is_stop pre)
                  ++ replicate (S (length (List.filter is_stop post))) None)).
Proof.
  intros Hvalid Hne W Hsh Hpre Hpost Hmax Hfuel.
  rewrite (visits_of_ClassInfo fuel n interp ci _ Hvalid Hne W Hmax Hfuel).
  rewrite reports_app_functions by done. simpl. rewrite Hsh.
  rewrite <- (app_nil_r post) at 1. rewrite reports_app_functions by done.
  simpl. rewrite app_nil_r. do 4 f_equal.
  induction (List.filter is_stop post) as [|d l IH]; [done |].
  simpl. f_equal. exact IH.
Qed.

Lemma null_after_empty_using_witness :
  of_ClassInfo 6 simple_interp (Some (class_with empty_using)) ≫= visits 6 4 =
    Some [None; None].
Proof.
  apply (null_after_empty_using 6 4 simple_interp (class_with empty_using) []
           [DFunction g_method] empty_using).
  - reflexivity.
  - discriminate.
  - repeat constructor.
  - reflexivity.
  - constructor.
  - repeat constructor.
  - reflexivity.
  - vm_compute. lia.
Defined.

End Walk_facts.

(** * What a step reports *)

Module Found_facts.
Import TDictionary TClingMethodInfo Query_defs Cursor_defs Step_defs Found_defs.
Import Query_facts Cursor_facts Step_facts.

Lemma loop_live (fuel : nat) (c : t) (c' : t) :
  loop fuel c = Some (1, c') -> fUsingIter c' = None ->
  exists FD, cur_decl c' = Some (DFunction FD) /\ FunctionDecl.isDeleted FD = false.
Proof.
  revert c. induction fuel as [|fuel IH]; intros c; [discriminate |].
  cbn [loop]. intros HL HU.
  pose proof (advance_post (set_fTemplateSpec None c) eq_refl) as HA.
  destruct (advance (set_fTemplateSpec None c)) as [r1 c1|c1]; simpl in HA.
  - injection HL as _ <-.
    destruct HA as (_ & _ & _ & _ & _ & _ & _ & _ & it & Hit & _). congruence.
  - destruct HA as (HT & _).
    destruct (next_context (S fuel) c1) as [fl|] eqn:HN; [|discriminate].
    apply next_context_post in HN as (Hfl & HT2 & _).
    destruct fl as [r2 c2|c2]; simpl in *.
    + destruct Hfl as (-> & _). discriminate.
    + pose proof (classify_post c2) as HC. rewrite HT2, HT in HC.
      specialize (HC eq_refl).
      destruct (classify c2) as [r3 c3|c3].
      * injection HL as _ <-.
        destruct HC as (_ & _ & [(FD & Hcur & Hdel & ->) | (ud & _ & ->)]).
        -- by exists FD.
        -- discriminate.
      * by apply IH in HL.
Qed.

(** The value a step returns and the cursor it leaves: after [0] there
    is no current declaration and the cursor is invalid; after [1], when
    no sub-iterator is held, the current declaration is the function
    under the outer iterator, and that function is not deleted. *)
Theorem InternalNext_result (fuel : nat) (c : t) (r : Z) (c' : t) :
  consistent c ->
  InternalNext fuel c = Some (r, c') ->
  (r = 0 -> GetDecl c' = None /\ IsValid c' = false) /\
  (r = 1 -> fUsingIter c' = None ->
   exists FD, GetDecl c' = Some (DFunction FD) /\ cur_decl c' = Some (DFunction FD) /\
     FunctionDecl.isDeleted FD = false).
Proof.
  intros Hc HN.
  pose proof (InternalNext_post _ _ _ _ Hc HN) as (Hc' & _ & H0 & H1).
  split.
  - intros ->. destruct (H0 eq_refl) as [Hex _].
    pose proof (exhausted_GetDecl c' Hc' Hex) as HG.
    split; [done | by apply IsValid_false].
  - intros -> HU. destruct (H1 eq_refl) as [HT _]. destruct Hc' as [HD' _].
    unfold InternalNext in HN. destruct (negb _ && _); [discriminate |].
    destruct (loop_live _ _ _ HN HU) as (FD & Hcur & Hdel).
    exists FD. split_and!; try done.
    unfold GetDecl, GetDeclSlow. by rewrite HD', HT, HU.
Qed.

Lemma InternalNext_result_witness :
  (1 = 0 -> GetDecl (in_methods [DFunction g_method]) = None /\
            IsValid (in_methods [DFunction g_method]) = false) /\
  (1 = 1 -> fUsingIter (in_methods [DFunction g_method]) = None ->
   exists FD, GetDecl (in_methods [DFunction g_method]) = Some (DFunction FD) /\
     cur_decl (in_methods [DFunction g_method]) = Some (DFunction FD) /\
     FunctionDecl.isDeleted FD = false).
Proof.
  apply (InternalNext_result 2 (in_methods [DFunction f_method; DFunction g_method]) 1
           (in_methods [DFunction g_method])).
  - split; [reflexivity | discriminate].
  - reflexivity.
Defined.

(** For a shadow that is no constructor shadow, the sub-iterator gives
    the target when it is a function, method or not, and null
    otherwise. *)
Lemma deref_plain_shadow (interp : Interpreter.t) (shadow : UsingShadowDecl.t)
    (rest : list UsingShadowDecl.t) :
  UsingShadowDecl.isConstructorUsingShadow shadow = false ->
  UsingIterator.deref (UsingIterator.mk interp (shadow :: rest)) =
    UsingIterator.dyn_cast_FunctionDecl (UsingShadowDecl.getTargetDecl shadow).
Proof.
  intros Hs. unfold UsingIterator.deref. simpl. rewrite Hs.
  destruct (UsingShadowDecl.getTargetDecl shadow) as [fd|name]; [|done].
  simpl. by destruct (isa_CXXMethodDecl fd).
Qed.

(** The constructor stops at a leading using-declaration without looking
    at what its first shadow resolves to.  When that is a function, the
    function is the current declaration of a valid cursor, deleted or
    not; the outer iterator passes over a deleted function, the
    sub-iterator does not.  For a deleted one [Property] and
    [ExtraProperty] are empty. *)
Theorem using_target_reported (K : TDictionary.t) (fuel : nat) (interp : Interpreter.t)
    (ci : TClingClassInfo.t) (udecl : UsingDecl.t) (rest : list Decl)
    (shadow : UsingShadowDecl.t) (shadows : list UsingShadowDecl.t)
    (fd : FunctionDecl.t) :
  TClingClassInfo.IsValid ci = true ->
  TClingClassInfo.GetDecl ci = DUsing udecl :: rest ->
  UsingDecl.shadows udecl = shadow :: shadows ->
  UsingShadowDecl.isConstructorUsingShadow shadow = false ->
  UsingShadowDecl.getTargetDecl shadow = TargetFunction fd ->
  (0 < fuel)%nat ->
  exists c0,
    of_ClassInfo fuel interp (Some ci) = Some c0 /\
    GetDecl c0 = Some (DFunction fd) /\
    IsValid c0 = true /\
    fAccessDecl c0 = Some (DUsing udecl) /\
    (FunctionDecl.isDeleted fd = true ->
     Property K c0 = Some 0 /\ ExtraProperty K c0 = Some 0).
Proof.
  intros Hvalid Hdecls Hsh Hplain Htarget Hfuel.
  destruct fuel as [|fuel]; [lia |].
  unfold of_ClassInfo. rewrite Hvalid. simpl negb. cbv iota.
  set (c0 := mk None "" interp (TClingClassInfo.collectAllContexts ci) true 0
               (DUsing udecl :: rest) "" None
               (Some (UsingIterator.of_decl interp udecl)) (Some (DUsing udecl))).
  exists c0. split.
  { unfold InternalNext. cbn. rewrite Hdecls. reflexivity. }
  assert (GetDecl c0 = Some (DFunction fd)) as HG.
  { unfold GetDecl, GetDeclSlow, UsingIterator.to_bool. simpl.
    unfold UsingIterator.of_decl. rewrite Hsh. simpl.
    rewrite (deref_plain_shadow interp shadow shadows Hplain).
    by rewrite Htarget. }
  assert (IsValid c0 = true) as HV by (unfold IsValid; by rewrite HG).
  split_and!; [exact HG | exact HV | reflexivity |].
  intros Hdel. unfold Property, ExtraProperty, GetMethodDecl, Property_of.
  rewrite HV, HG. simpl. by rewrite Hdel.
Qed.

Lemma using_target_reported_witness :
  exists c0,
    of_ClassInfo 1 simple_interp (Some class_using_deleted) = Some c0 /\
    GetDecl c0 = Some (DFunction deleted_method) /\
    IsValid c0 = true /\
    fAccessDecl c0 = Some (DUsing deleted_using) /\
    (FunctionDecl.isDeleted deleted_method = true ->
     Property root_bits c0 = Some 0 /\ ExtraProperty root_bits c0 = Some 0).
Proof.
  apply (using_target_reported root_bits 1 simple_interp class_using_deleted
           deleted_using [] (UsingShadowDecl.mk false (TargetFunction deleted_method)) []
           deleted_method eq_refl eq_refl eq_refl eq_refl eq_refl).
  lia.
Defined.

End Found_facts.
